(** * esky.sudo: the privilege-separation proxy, embedded and verified

    This development embeds [esky/sudo/__init__.py] (Python 2): the
    [allow_from_sudo] decorator, the allowlist lookup [_get_sudo_argtypes]
    with its two method-resolution walks, and the [SudoProxy] class, whose
    [start], [close], [__getattr__] and generated wrappers run in the
    unprivileged process and whose [run] is the serve loop of the elevated
    helper.

    Layout: Python values and exceptions; function objects, classes and the
    allowlist lookup; a state-and-exception monad for the effectful code;
    the pipe interface and two pipes that implement it; [SudoProxy];
    then the theorems.  The module [winres] embeds [esky/winres.py], the
    resource helpers that go through kernel32. *)

From Stdlib Require Import Ascii String DecimalString.
From stdpp Require Import gmap strings list.

Set Warnings "-clear-no-such-hyp".
Open Scope string_scope.
Open Scope list_scope.
Open Scope nat_scope.

(** ** Python values and exceptions *)

(** The exception classes the module names or can meet, and how they sit in
    the Python 2.5+ hierarchy: everything derives from [Exception] except
    [KeyboardInterrupt] and [SystemExit], which derive from [BaseException]
    only.  [UserError] stands for any application class derived from
    [Exception]. *)
Inductive exc_class :=
| AttributeError | NameError | EOFError | RuntimeError | TypeError
| ValueError | IOError | PicklingError | UnpicklingError
| KeyboardInterrupt | SystemExit
| UserError (cls : string).

Record pyexc := Exc { exc_type : exc_class; exc_msg : string }.

(** [isinstance(e, Exception)]: what [except Exception, e] catches. *)
Definition isinstance_Exception (e : pyexc) : bool :=
  match exc_type e with
  | KeyboardInterrupt | SystemExit => false
  | _ => true
  end.

(** [isinstance(e, EOFError)]: what [except EOFError] catches. *)
Definition isinstance_EOFError (e : pyexc) : bool :=
  match exc_type e with
  | EOFError => true
  | _ => false
  end.

(** The objects that travel as arguments and results.  An exception
    instance is an object like any other: it can be returned, pickled and,
    on the far side, raised. *)
Inductive pyobj :=
| PyNone
| PyBool (b : bool)
| PyInt (z : Z)
| PyStr (s : string)
| PyExc (e : pyexc).

(** The builtin [str]. *)
Definition str (o : pyobj) : string :=
  match o with
  | PyNone => "None"
  | PyBool true => "True"
  | PyBool false => "False"
  | PyInt z => NilZero.string_of_int (Z.to_int z)
  | PyStr s => s
  | PyExc e => exc_msg e
  end.

(** [s.startswith("_")] *)
Definition startswith_underscore (s : string) : bool :=
  match s with
  | String "_"%char _ => true
  | _ => false
  end.

(** The outcome of calling a Python callable. *)
Inductive call_result :=
| Returns (v : pyobj)
| Raises (e : pyexc).

(** ** Function objects, classes, instances *)

(** An argument type as given to [allow_from_sudo]: a callable applied to
    the raw string read from the pipe ([str], [int], ...). *)
Definition argtype := string -> call_result.

(** What [getattr(self.sudo_proxy, name)( *args )] does, seen from the
    method that forwards: the proxy is known by its behaviour. *)
Definition forwarder := string -> list pyobj -> call_result.

(** The instance attributes of the target that this module reads or
    writes. *)
Record instance := Instance {
  name : string;
  sudo_proxy : option forwarder
}.

(** A function object: its [func_name], the [_esky_sudo_argtypes]
    attribute when it carries one ([None] here is Python's
    [AttributeError]), and its behaviour when called as a method of an
    instance. *)
Record pyfunc := PyFunc {
  func_name : string;
  _esky_sudo_argtypes : option (list argtype);
  func_call : instance -> list pyobj -> call_result
}.

(** [allow_from_sudo( *argtypes )(func)]: the wrapper keeps [func]'s name
    ([@wraps(func)]), forwards to [self.sudo_proxy] when there is one and
    otherwise calls [func]; it carries the declaration. *)
Definition allow_from_sudo (argtypes : list argtype) (func : pyfunc) : pyfunc :=
  {| func_name := func_name func;
     _esky_sudo_argtypes := Some argtypes;
     func_call := fun self args =>
       match sudo_proxy self with
       | Some proxy => proxy (func_name func) args
       | None => func_call func self args
       end |}.

(** A class object.  [cls_id] is its identity (what [set] membership of a
    class compares); [__mro__] is present on new-style classes only;
    [__bases__] are the direct bases, left to right; [__dict__] holds the
    functions defined in the class body. *)
#[local] Unset Elimination Schemes.
Inductive pyclass := PyClass {
  cls_id : positive;
  __mro__ : option (list pyclass);
  __bases__ : list pyclass;
  __dict__ : gmap string pyfunc
}.
#[local] Set Elimination Schemes.

(** An instance together with its class. *)
Record pyobject := PyObject {
  __class__ : pyclass;
  attrs : instance
}.

(** *** Method resolution order *)

(** The loop [for base in cls.__bases__] of [_get_oldstyle_mro], with the
    recursive call abstracted as [visit].  [seen] is the one set object
    shared by the whole walk, so it is threaded through. *)
Section OldstyleBases.
Variable visit : pyclass -> gset positive -> list pyclass * gset positive.

Fixpoint oldstyle_bases (bases : list pyclass) (seen : gset positive)
  : list pyclass * gset positive :=
  match bases with
  | [] => ([], seen)
  | base :: bases' =>
      if decide (cls_id base ∈ seen) then oldstyle_bases bases' seen
      else
        let '(ancestors, seen1) := visit base seen in
        let '(rest, seen2) := oldstyle_bases bases' seen1 in
        (ancestors ++ rest, seen2)
  end.
End OldstyleBases.

(** [_get_oldstyle_mro(cls, seen)]: the classes the generator yields, in
    order, and the final content of [seen]. *)
Fixpoint _get_oldstyle_mro (cls : pyclass) (seen : gset positive)
  : list pyclass * gset positive :=
  match cls with
  | PyClass i _ bases _ =>
      let seen0 := {[ i ]} ∪ seen in
      let '(ancestors, seen1) :=
        (fix bases_loop (bases : list pyclass) (seen : gset positive) :=
           match bases with
           | [] => ([], seen)
           | base :: bases' =>
               if decide (cls_id base ∈ seen) then bases_loop bases' seen
               else
                 let '(ancestors, seen1) := _get_oldstyle_mro base seen in
                 let '(rest, seen2) := bases_loop bases' seen1 in
                 (ancestors ++ rest, seen2)
           end) bases seen0 in
      (cls :: ancestors, seen1)
  end.

(** [_get_mro(obj)]: [__mro__] of the class, or the old-style walk when the
    class has no such attribute. *)
Definition _get_mro (obj : pyobject) : list pyclass :=
  match __mro__ (__class__ obj) with
  | Some mro => mro
  | None => (_get_oldstyle_mro (__class__ obj) ∅).1
  end.

(** [base.__dict__[methname]._esky_sudo_argtypes], with [None] for either
    [KeyError] or [AttributeError]. *)
Definition declared (base : pyclass) (methname : string) : option (list argtype) :=
  match __dict__ base !! methname with
  | None => None
  | Some f => _esky_sudo_argtypes f
  end.

(** The [for base in ...] loop of [_get_sudo_argtypes]. *)
Fixpoint first_declared (mro : list pyclass) (methname : string)
  : option (list argtype) :=
  match mro with
  | [] => None
  | base :: rest =>
      match declared base methname with
      | Some argtypes => Some argtypes
      | None => first_declared rest methname
      end
  end.

Definition _get_sudo_argtypes (obj : pyobject) (methname : string)
  : option (list argtype) :=
  first_declared (_get_mro obj) methname.

(** The builtin [getattr(obj, methname)] for a method: the entry of the
    first class, in resolution order, whose body defines [methname];
    [None] is [AttributeError].  Methods are looked up in classes; the
    instance dictionary is not modelled as a place to find them. *)
Fixpoint first_defined (mro : list pyclass) (methname : string) : option pyfunc :=
  match mro with
  | [] => None
  | base :: rest =>
      match __dict__ base !! methname with
      | Some f => Some f
      | None => first_defined rest methname
      end
  end.

Definition getattr (obj : pyobject) (methname : string) : option pyfunc :=
  first_defined (_get_mro obj) methname.

(** ** Effects: state, exceptions, blocking *)

(** A computation over a state [S] ends in one of three ways: it returns,
    it raises, or it is suspended in a read that has nothing to deliver
    yet.  Every outcome carries the state reached. *)
Inductive outcome (S A : Type) : Type :=
| Ok (a : A) (s : S)
| Raise (e : pyexc) (s : S)
| Block (s : S).
Arguments Ok {S A} a s.
Arguments Raise {S A} e s.
Arguments Block {S A} s.

Definition M (S A : Type) : Type := S -> outcome S A.

#[global] Instance M_ret {S} : MRet (M S) := λ A a s, Ok a s.

#[global] Instance M_bind {S} : MBind (M S) := λ A B k c s,
  match c s with
  | Ok a s' => k a s'
  | Raise e s' => Raise e s'
  | Block s' => Block s'
  end.

Definition raise {S A} (e : pyexc) : M S A := λ s, Raise e s.

(** A callable's result, as a computation. *)
Definition of_call {S} (r : call_result) : M S pyobj :=
  match r with
  | Returns v => mret v
  | Raises e => raise e
  end.

(** A library function that answers or raises. *)
Definition of_sum {S A} (r : pyexc + A) : M S A :=
  match r with
  | inl e => raise e
  | inr a => mret a
  end.

(** [try: body except <catches>, e: handler e] *)
Definition try_except {S A} (body : M S A) (catches : pyexc -> bool)
    (handler : pyexc -> M S A) : M S A := λ s,
  match body s with
  | Raise e s' => if catches e then handler e s' else Raise e s'
  | o => o
  end.

(** [finally: final], applied to the outcome of the protected block.  A
    suspended block has not left the [try]. *)
Definition finally {S A} (o : outcome S A) (final : M S unit) : outcome S A :=
  match o with
  | Ok a s =>
      match final s with
      | Ok _ s' => Ok a s'
      | Raise e s' => Raise e s'
      | Block s' => Block s'
      end
  | Raise e s =>
      match final s with
      | Ok _ s' => Raise e s'
      | Raise e' s' => Raise e' s'
      | Block s' => Block s'
      end
  | Block s => Block s
  end.

(** [while True: body], where the body says whether it reached [break].
    The loop is cut after [fuel] iterations ([None]).  When the body is
    suspended the loop reports the state at which that iteration began:
    running the loop again from there replays the suspended iteration. *)
Inductive loop_ctl := Continue | Break.

Fixpoint while_true {S} (fuel : nat) (body : M S loop_ctl) (s : S)
  : option (outcome S unit) :=
  match fuel with
  | O => None
  | S fuel' =>
      match body s with
      | Ok Continue s' => while_true fuel' body s'
      | Ok Break s' => Some (Ok tt s')
      | Raise e s' => Some (Raise e s')
      | Block _ => Some (Block s)
      end
  end.

(** ** Pipes *)

(** The pipe object handed over by [spawn_sudo] is used through three
    methods only. *)
Class Pipe (P : Type) := {
  pipe_read : M P string;
  pipe_write : string -> M P unit;
  pipe_close : M P unit
}.

(** Modelled from the spec: the Channel, whose implementation
    ([esky.sudo.sudo_unix], [esky.sudo.sudo_win32]) is not part of these
    sources.  One end of an ordered duplex stream of discrete messages:
    [inbox] holds what the peer sends, in order; [peer_gone] tells whether
    the peer has closed its end or died, after which a read that finds
    nothing fails with end-of-stream ([EOFError]) where it would otherwise
    wait; [outbox] records what this end wrote; closing is idempotent, and
    reading or writing on an end that was closed is an error. *)
Record Endpoint := mkEndpoint {
  inbox : list string;
  peer_gone : bool;
  outbox : list string;
  closed : bool
}.

Definition closed_error : pyexc := Exc ValueError "I/O operation on closed file".

Definition endpoint_read : M Endpoint string := λ p,
  if closed p then Raise closed_error p
  else match inbox p with
       | msg :: rest => Ok msg (mkEndpoint rest (peer_gone p) (outbox p) (closed p))
       | [] => if peer_gone p then Raise (Exc EOFError "") p else Block p
       end.

Definition endpoint_write (msg : string) : M Endpoint unit := λ p,
  if closed p then Raise closed_error p
  else Ok tt (mkEndpoint (inbox p) (peer_gone p) (outbox p ++ [msg]) (closed p)).

Definition endpoint_close : M Endpoint unit := λ p,
  Ok tt (mkEndpoint (inbox p) (peer_gone p) (outbox p) true).

#[global] Instance Endpoint_pipe : Pipe Endpoint := {
  pipe_read := endpoint_read;
  pipe_write := endpoint_write;
  pipe_close := endpoint_close
}.

(** ** Pickle *)

(** [pickle.dumps] and [pickle.loads] on the response pairs
    [(success, result)]; either can raise.  [pickle_loads] also stands for
    the unpacking [(success,result) = ...], which raises when the payload
    is not a pair. *)
Class Pickle := {
  pickle_dumps : bool * pyobj -> pyexc + string;
  pickle_loads : string -> pyexc + bool * pyobj
}.

(** ** SudoProxy.run: the serve loop of the helper *)

(** The exception Python raises for a name bound nowhere. *)
Definition name_error (var : string) : pyexc :=
  Exc NameError ("global name '" +:+ var +:+ "' is not defined").

(** [getattr] found no such attribute. *)
Definition no_attribute (attr : string) : pyexc :=
  Exc AttributeError ("no attribute '" +:+ attr +:+ "'").

Section Dispatcher.
Context {P : Type} `{!Pipe P} `{!Pickle}.

(** [[t(pipe.read()) for t in argtypes]] *)
Fixpoint read_args (argtypes : list argtype) : M P (list pyobj) :=
  match argtypes with
  | [] => mret []
  | t :: ts =>
      raw ← pipe_read;
      arg ← of_call (t raw);
      args ← read_args ts;
      mret (arg :: args)
  end.

(** [try: res = method( *args ) except Exception, e: ... else: ...]:
    the response to a request whose arguments have been read.  An
    exception that [except Exception] does not catch leaves the block. *)
Definition respond (target : pyobject) (method : pyfunc) (args : list pyobj)
  : M P loop_ctl :=
  match func_call method (attrs target) args with
  | Raises e =>
      if isinstance_Exception e then
        response ← of_sum (pickle_dumps (false, PyExc e));
        pipe_write response;;
        mret Continue
      else raise e
  | Returns res =>
      response ← of_sum (pickle_dumps (true, res));
      pipe_write response;;
      mret Continue
  end.

(** The [else] branch of the loop body, for a request [methname] other
    than ["close"].  The name [attr] in the source's [raise] is bound
    neither in [run] nor in the module, so evaluating the argument of
    [AttributeError(...)] raises [NameError]. *)
Definition dispatch (target : pyobject) (methname : string) : M P loop_ctl :=
  match _get_sudo_argtypes target methname with
  | None => raise (name_error "attr")
  | Some argtypes =>
      match getattr target methname with
      | None => raise (no_attribute methname)
      | Some method =>
          args ← read_args argtypes;
          respond target method args
      end
  end.

(** What the loop body does with the request name it has read. *)
Definition handle (target : pyobject) (methname : string) : M P loop_ctl :=
  if decide (methname = "close") then
    pipe_write "CLOSING";;
    mret Break
  else dispatch target methname.

(** One turn of [while True], with its [try ... except EOFError: break]. *)
Definition serve_once (target : pyobject) : M P loop_ctl :=
  try_except
    (methname ← pipe_read;
     handle target methname)
    isinstance_EOFError
    (λ _, mret Break).

(** [try: while True: ... finally: pipe.close()] *)
Definition serve (fuel : nat) (target : pyobject) (pipe : P)
  : option (outcome P unit) :=
  (λ o, finally o pipe_close) <$> while_true fuel (serve_once target) pipe.

(** [self.target.sudo_proxy = None] *)
Definition clear_sudo_proxy (target : pyobject) : pyobject :=
  PyObject (__class__ target) (Instance (name (attrs target)) None).

(** [SudoProxy.run(self, pipe)], for [self.target = target]. *)
Definition run (fuel : nat) (target : pyobject) (pipe : P)
  : option (outcome P unit) :=
  match pipe_write "READY" pipe with
  | Ok _ pipe1 => serve fuel (clear_sudo_proxy target) pipe1
  | Raise e pipe1 => Some (Raise e pipe1)
  | Block pipe1 => Some (Block pipe1)
  end.
End Dispatcher.

(** ** SudoProxy: the unprivileged side *)

(** The function built by [__getattr__]: a closure over
    [method.im_func.func_name] and over the pipe object bound to
    [self.pipe] at that moment (a reference into the heap, or [None]). *)
Record wrapper := Wrapper {
  w_func_name : string;
  w_pipe : option nat
}.

(** The instance dictionary of a [SudoProxy]: [name], [target], [pipe]
    and whatever [setattr(self, attr, wrapper)] has stored. *)
Record SudoProxy := mkSudoProxy {
  self_name : string;
  self_target : pyobject;
  self_pipe : option nat;
  self_dict : gmap string wrapper
}.

(** [SudoProxy.__init__(self, target)] *)
Definition __init__ (target : pyobject) : SudoProxy :=
  {| self_name := name (attrs target);
     self_target := target;
     self_pipe := None;
     self_dict := ∅ |}.

(** The unprivileged process: the pipe objects that exist in it and the
    proxy.  Pipe objects are shared by reference between [self.pipe] and
    the wrappers, hence the heap. *)
Record process (P : Type) := mkProcess {
  heap : list P;
  self : SudoProxy
}.
Arguments mkProcess {P} heap self.
Arguments heap {P} p.
Arguments self {P} p.

Definition none_has_no (attr : string) : pyexc :=
  Exc AttributeError ("'NoneType' object has no attribute '" +:+ attr +:+ "'").

(** [raise] applied to an object that is not an exception. *)
Definition not_an_exception : pyexc :=
  Exc TypeError "exceptions must be classes or instances".

(** The process with the pipe object at [r] in state [p]. *)
Definition with_pipe {P} (r : nat) (p : P) (w : process P) : process P :=
  mkProcess (<[r := p]> (heap w)) (self w).

(** The process after [self.pipe = <new pipe object p>]. *)
Definition bound_to {P} (p : P) (w : process P) : process P :=
  let s := self w in
  mkProcess (heap w ++ [p])
    (mkSudoProxy (self_name s) (self_target s) (Some (length (heap w)))
       (self_dict s)).

(** The process after [setattr(self, attr, f)]. *)
Definition remember {P} (attr : string) (f : wrapper) (w : process P) : process P :=
  let s := self w in
  mkProcess (heap w)
    (mkSudoProxy (self_name s) (self_target s) (self_pipe s)
       (<[attr := f]> (self_dict s))).

(** *** What a [SudoProxy] instance has by itself

    [SudoProxy] derives from [object].  These are the names that ordinary
    attribute lookup finds on an instance (Python 2.7): the attributes
    that [__init__] sets, the functions of the class body with what the
    [class] statement adds, and what [object] provides.  Among them
    [__class__], [__dict__] and [__weakref__] are data descriptors, which
    come before the instance dictionary. *)
Definition instance_attributes : list string := ["name"; "target"; "pipe"].

Definition data_descriptors : list string :=
  ["__class__"; "__dict__"; "__weakref__"].

Definition class_attributes : list string :=
  ["__init__"; "start"; "close"; "run"; "__getattr__"; "__module__"; "__doc__"].

Definition object_attributes : list string :=
  ["__delattr__"; "__format__"; "__getattribute__"; "__hash__"; "__new__";
   "__reduce__"; "__reduce_ex__"; "__repr__"; "__setattr__"; "__sizeof__";
   "__str__"; "__subclasshook__"].

(** Is [attr] one of them? *)
Definition own_attribute (attr : string) : bool :=
  bool_decide (attr ∈ data_descriptors ++ instance_attributes ++
                      class_attributes ++ object_attributes).

(** What [proxy.attr] evaluates to: one of the proxy's own attributes
    ([self.name], the bound method [self.close], ...), known by its name,
    or a forwarding wrapper built by [__getattr__]. *)
Inductive attribute :=
| Own (attr : string)
| Forwarder (f : wrapper).

Section Proxy.
Context {P : Type} `{!Pipe P} `{!Pickle}.

(** [ref.attr(...)] for a variable [ref] holding a pipe object or
    [None]: the method [op] runs on the object in the heap.  References
    come from [bind_pipe] only, so the lookup in the heap cannot fail; a
    dangling one is treated as [None]. *)
Definition on_pipe {A} (ref : option nat) (attr : string) (op : M P A)
  : M (process P) A := λ w,
  match ref with
  | None => Raise (none_has_no attr) w
  | Some i =>
      match heap w !! i with
      | None => Raise (none_has_no attr) w
      | Some p =>
          match op p with
          | Ok a p' => Ok a (with_pipe i p' w)
          | Raise e p' => Raise e (with_pipe i p' w)
          | Block p' => Block (with_pipe i p' w)
          end
      end
  end.

(** [self.pipe.attr(...)] *)
Definition on_self_pipe {A} (attr : string) (op : M P A) : M (process P) A :=
  λ w, on_pipe (self_pipe (self w)) attr op w.

(** [SudoProxy.close(self)] *)
Definition close : M (process P) unit :=
  on_self_pipe "write" (pipe_write "close");;
  on_self_pipe "read" pipe_read;;
  on_self_pipe "close" pipe_close.

(** [self.pipe = spawn_sudo(self)], where [spawned] is the pipe object
    the launcher returns: a new object in the heap. *)
Definition bind_pipe (spawned : P) : M (process P) unit := λ w,
  Ok tt (bound_to spawned w).

(** [SudoProxy.start(self)] *)
Definition start (spawned : P) : M (process P) unit :=
  bind_pipe spawned;;
  msg ← on_self_pipe "read" pipe_read;
  if decide (msg ≠ "READY") then
    close;;
    raise (Exc RuntimeError "failed to spawn helper app")
  else mret tt.

(** [setattr(self, attr, wrapper)] *)
Definition setattr (attr : string) (f : wrapper) : M (process P) unit := λ w,
  Ok tt (remember attr f w).

Definition not_allowed (attr : string) : pyexc :=
  Exc AttributeError ("attribute '" +:+ attr +:+ "' not allowed from sudo").

(** [SudoProxy.__getattr__(self, attr)]: what Python calls for an
    attribute that ordinary lookup does not find on the proxy. *)
Definition __getattr__ (attr : string) : M (process P) wrapper := λ w,
  if startswith_underscore attr then Raise (Exc AttributeError attr) w
  else
    let target := self_target (self w) in
    match _get_sudo_argtypes target attr with
    | None => Raise (not_allowed attr) w
    | Some _ =>
        match getattr target attr with
        | None => Raise (no_attribute attr) w
        | Some method =>
            let pipe := self_pipe (self w) in
            let f := Wrapper (func_name method) pipe in
            (setattr attr f;; mret f) w
        end
    end.

(** [for arg in args: pipe.write(str(arg))] *)
Fixpoint write_args (pipe : option nat) (args : list pyobj) : M (process P) unit :=
  match args with
  | [] => mret tt
  | arg :: args' =>
      on_pipe pipe "write" (pipe_write (str arg));;
      write_args pipe args'
  end.

(** [raise result] *)
Definition raise_object {S A} (result : pyobj) : M S A :=
  match result with
  | PyExc e => raise e
  | _ => raise not_an_exception
  end.

(** [(success,result) = pickle.loads(response)], then [raise result] or
    [return result]. *)
Definition unpack {S} (response : string) : M S pyobj :=
  '(success, result) ← of_sum (pickle_loads response);
  if negb success then raise_object result
  else mret result.

(** The body of the generated [wrapper( *args )]. *)
Definition call (f : wrapper) (args : list pyobj) : M (process P) pyobj :=
  on_pipe (w_pipe f) "write" (pipe_write (w_func_name f));;
  write_args (w_pipe f) args;;
  response ← on_pipe (w_pipe f) "read" pipe_read;
  unpack response.

(** [proxy.attr]: attribute access on the proxy.  Ordinary lookup comes
    first: the data descriptors of the class, the instance dictionary
    (the attributes set by [__init__], the wrappers stored by
    [__getattr__]), then the other attributes of the class and of
    [object].  [__getattr__] is called only for a name that this lookup
    does not find.  The names [name], [target] and [pipe] are not keys of
    [self_dict]: [__getattr__], which stores the wrappers, is not called
    for them. *)
Definition getattribute (attr : string) : M (process P) attribute := λ w,
  if bool_decide (attr ∈ data_descriptors ++ instance_attributes)
  then Ok (Own attr) w
  else
    match self_dict (self w) !! attr with
    | Some f => Ok (Forwarder f) w
    | None =>
        if bool_decide (attr ∈ class_attributes ++ object_attributes)
        then Ok (Own attr) w
        else (f ← __getattr__ attr; mret (Forwarder f)) w
    end.
End Proxy.

(** ** The two processes connected *)

(** Modelled from the spec: the Channel as the unprivileged side sees it
    when the peer is the helper running [SudoProxy.run] (the launcher and
    its pipe are not part of these sources).  The helper is a coroutine:
    it owns [helper_end], its own end of the channel, and runs only when
    this side reads and finds nothing, until it is itself suspended in a
    read or leaves [run].  [taken] counts the helper's messages already
    read here; [sent] records what this side wrote. *)
Record Linked := mkLinked {
  helper_target : pyobject;
  helper_end : Endpoint;
  helper_alive : bool;
  taken : nat;
  sent : list string;
  here_closed : bool
}.

Section Link.
Context `{!Pickle}.

(** The helper serves what has reached it.  The fuel given to the loop is
    enough for the messages it can consume ([serve_enough_fuel] below), so
    the last branch is never taken. *)
Definition helper_runs (l : Linked) : Linked :=
  let ep := helper_end l in
  match serve (S (length (inbox ep))) (helper_target l) ep with
  | Some (Block ep') =>
      mkLinked (helper_target l) ep' true (taken l) (sent l) (here_closed l)
  | Some (Ok _ ep') | Some (Raise _ ep') =>
      mkLinked (helper_target l) ep' false (taken l) (sent l) (here_closed l)
  | None => l
  end.

Definition take_message (l : Linked) : option (string * Linked) :=
  msg ← outbox (helper_end l) !! taken l;
  Some (msg, mkLinked (helper_target l) (helper_end l) (helper_alive l)
               (S (taken l)) (sent l) (here_closed l)).

Definition linked_read : M Linked string := λ l,
  if here_closed l then Raise closed_error l
  else match take_message l with
       | Some (msg, l') => Ok msg l'
       | None =>
           if helper_alive l then
             let l1 := helper_runs l in
             match take_message l1 with
             | Some (msg, l') => Ok msg l'
             | None => if helper_alive l1 then Block l1
                       else Raise (Exc EOFError "") l1
             end
           else Raise (Exc EOFError "") l
       end.

Definition deliver (msg : string) (ep : Endpoint) : Endpoint :=
  mkEndpoint (inbox ep ++ [msg]) (peer_gone ep) (outbox ep) (closed ep).

Definition linked_write (msg : string) : M Linked unit := λ l,
  if here_closed l then Raise closed_error l
  else Ok tt (mkLinked (helper_target l) (deliver msg (helper_end l))
                (helper_alive l) (taken l) (sent l ++ [msg]) (here_closed l)).

Definition hang_up (ep : Endpoint) : Endpoint :=
  mkEndpoint (inbox ep) true (outbox ep) (closed ep).

Definition linked_close : M Linked unit := λ l,
  Ok tt (mkLinked (helper_target l) (hang_up (helper_end l))
           (helper_alive l) (taken l) (sent l) true).

#[global] Instance Linked_pipe : Pipe Linked := {
  pipe_read := linked_read;
  pipe_write := linked_write;
  pipe_close := linked_close
}.

(** What [spawn_sudo(proxy)] hands back once the helper has entered
    [proxy.run(pipe)] on its end and reached its first read: the
    assignment to [sudo_proxy] and the write of ["READY"] are done. *)
Definition spawn_sudo (proxy : SudoProxy) : Linked :=
  let target := clear_sudo_proxy (self_target proxy) in
  match pipe_write "READY" (mkEndpoint [] false [] false) with
  | Ok _ ep => mkLinked target ep true 0 [] false
  | Raise _ ep | Block ep => mkLinked target ep false 0 [] false
  end.
End Link.

(** ** Notions used to state the properties *)

(** Structural induction on classes, through the list of bases. *)
Definition pyclass_ind (Q : pyclass -> Prop)
    (step : ∀ i mro bases d, Forall Q bases → Q (PyClass i mro bases d))
  : ∀ c, Q c :=
  fix IH (c : pyclass) : Q c :=
    match c with
    | PyClass i mro bases d =>
        step i mro bases d
          ((fix all (l : list pyclass) : Forall Q l :=
              match l with
              | [] => @Stdlib.Lists.List.Forall_nil _ Q
              | b :: l' => @Stdlib.Lists.List.Forall_cons _ Q b l' (IH b) (all l')
              end) bases)
    end.

(** [ancestor c a]: [a] is [c] itself or is reached from [c] through
    [__bases__]. *)
Inductive ancestor : pyclass -> pyclass -> Prop :=
| ancestor_self c : ancestor c c
| ancestor_base c b a : b ∈ __bases__ c → ancestor b a → ancestor c a.

(** The resolution order of old-style classes: depth first, bases left to
    right; a class reached twice is listed twice, lookups stop at the
    first hit. *)
Fixpoint classic_order (cls : pyclass) : list pyclass :=
  match cls with
  | PyClass _ _ bases _ => cls :: (bases ≫= classic_order)
  end.

Fixpoint height (cls : pyclass) : nat :=
  match cls with
  | PyClass _ _ bases _ => S (foldr (λ b n, height b `max` n) 0 bases)
  end.

(** The identities of the classes of a list. *)
Definition ids (l : list pyclass) : gset positive := list_to_set (cls_id <$> l).

(** Keep, of every identity not in [seen], the first class that has it. *)
Fixpoint unseen (seen : gset positive) (l : list pyclass) : list pyclass :=
  match l with
  | [] => []
  | c :: l' =>
      if decide (cls_id c ∈ seen) then unseen seen l'
      else c :: unseen ({[ cls_id c ]} ∪ seen) l'
  end.

(** Class objects are known by their identity: within one hierarchy, the
    same identity is the same class. *)
Definition identities_distinct (root : pyclass) : Prop :=
  ∀ a b, ancestor root a → ancestor root b → cls_id a = cls_id b → a = b.

(** [seen] is closed below [cls]: a seen class under [cls] has its whole
    ancestry seen. *)
Definition closed_below (cls : pyclass) (seen : gset positive) : Prop :=
  ∀ c a, ancestor cls c → cls_id c ∈ seen → ancestor c a → cls_id a ∈ seen.

(** Two values stand for the same class object: same identity, same
    body. *)
Definition same_class (a b : pyclass) : Prop :=
  cls_id a = cls_id b ∧ __dict__ a = __dict__ b.

(** A class hierarchy as Python builds it: identities tell classes apart,
    and the [__mro__] of a new-style class begins with the class and lists
    the class and its ancestors, nothing else.  A class value cannot
    contain itself, so the entries of [__mro__] are values that stand for
    these classes. *)
Definition well_formed (cls : pyclass) : Prop :=
  identities_distinct cls ∧
  ∀ mro, __mro__ cls = Some mro →
    (∃ c rest, mro = c :: rest ∧ same_class c cls) ∧
    (∀ c, c ∈ mro → ∃ a, ancestor cls a ∧ same_class c a) ∧
    (∀ a, ancestor cls a → ∃ c, c ∈ mro ∧ same_class c a).

(** The method resolution order of the class of [obj]. *)
Definition resolution_order (obj : pyobject) : list pyclass :=
  match __mro__ (__class__ obj) with
  | Some mro => mro
  | None => classic_order (__class__ obj)
  end.

(** A proxy that has been started: [self.pipe] is an open link to a live
    helper that serves a target of the same class, has nothing left to
    read and has had all its messages read. *)
Record connected (w : process Linked) (r : nat) (l : Linked) : Prop := {
  connected_pipe : self_pipe (self w) = Some r;
  connected_heap : heap w !! r = Some l;
  connected_open : here_closed l = false;
  connected_alive : helper_alive l = true;
  connected_idle : inbox (helper_end l) = [];
  connected_peer : peer_gone (helper_end l) = false;
  connected_far : closed (helper_end l) = false;
  connected_read : taken l = length (outbox (helper_end l));
  connected_class : __class__ (helper_target l) = __class__ (self_target (self w));
  connected_local : sudo_proxy (attrs (helper_target l)) = None
}.


(** The channel end after [close()] has written its request. *)
Definition asked_to_close (ep : Endpoint) : Endpoint :=
  mkEndpoint (inbox ep) (peer_gone ep) (outbox ep ++ ["close"]) false.


(** ** Requests and their answers *)

(** A request as it travels: the method name and the raw argument
    strings. *)
Record request := Request {
  req_name : string;
  req_args : list string
}.

Definition wire (q : request) : list string := req_name q :: req_args q.

(** The coercions applied to the raw strings, when there is one string per
    coercion and none raises. *)
Fixpoint coerce (argtypes : list argtype) (raws : list string)
  : option (list pyobj) :=
  match argtypes, raws with
  | [], [] => Some []
  | t :: ts, raw :: raws' =>
      match t raw with
      | Returns c => cs ← coerce ts raws'; Some (c :: cs)
      | Raises _ => None
      end
  | _, _ => None
  end.

(** The response message the helper owes to a request it serves: the
    pickled outcome of the method, when the request names an allowed
    method other than ["close"], the coercions accept the arguments, the
    outcome is a result or an instance of [Exception], and it pickles. *)
Definition answer `{!Pickle} (target : pyobject) (q : request) : option string :=
  if decide (req_name q = "close") then None
  else
    argtypes ← _get_sudo_argtypes target (req_name q);
    method ← getattr target (req_name q);
    cargs ← coerce argtypes (req_args q);
    match func_call method (attrs target) cargs with
    | Returns res =>
        match pickle_dumps (true, res) with inr s => Some s | inl _ => None end
    | Raises e =>
        if isinstance_Exception e then
          match pickle_dumps (false, PyExc e) with inr s => Some s | inl _ => None end
        else None
    end.

(** The state of an outcome. *)
Definition state_of {S A} (o : outcome S A) : S :=
  match o with
  | Ok _ s | Raise _ s | Block s => s
  end.

(** The pair [run] pickles for the outcome of a method, when it pickles
    one: [(True, res)], or [(False, e)] for what [except Exception]
    catches. *)
Definition outcome_pair (r : call_result) : option (bool * pyobj) :=
  match r with
  | Returns res => Some (true, res)
  | Raises e => if isinstance_Exception e then Some (false, PyExc e) else None
  end.

(** What one visit yields: its class first, no identity twice, ancestors
    only, nothing that was seen before apart from the class itself; and
    [seen] gains what was yielded. *)
Definition visit_ok (cls : pyclass) : Prop :=
  ∀ seen,
    let l := (_get_oldstyle_mro cls seen).1 in
    head l = Some cls ∧
    NoDup (cls_id <$> l) ∧
    (∀ c, c ∈ l → ancestor cls c) ∧
    (∀ c, c ∈ tail l → cls_id c ∉ seen) ∧
    (_get_oldstyle_mro cls seen).2 = ids l ∪ seen.

(** ** esky.winres: resources of PE executables, through kernel32 *)

Module winres.

Definition LOAD_LIBRARY_AS_DATAFILE : Z := 2.
Definition RT_ICON : Z := 3.
Definition RT_VERSION : Z := 16.
Definition RT_MANIFEST : Z := 24.
Definition _DEFAULT_RESLANG : Z := 1033.

(** A file name as Python 2 has it: a byte string or a unicode string. *)
Inductive pyname :=
| StrName (s : string)
| UnicodeName (s : string).

(** What is given where a file name or a module handle is expected:
    a name, a handle (an integer), or [None]. *)
Inductive pyarg :=
| Name (n : pyname)
| Handle (h : Z)
| NoneArg.

(** A call of a kernel32 function with its arguments.  A module handle is
    passed as the caller got it: an integer, or [None], which ctypes passes
    as a null pointer. *)
Inductive k32_call :=
| LoadLibraryExW (filename : string) (hFile : option Z) (flags : Z)
| FindResourceExW (l_handle : option Z) (res_type res_id res_lang : Z)
| SizeofResource (l_handle : option Z) (r_handle : Z)
| LoadResource (l_handle : option Z) (r_handle : Z)
| LockResource (r_info : Z)
| FreeLibrary (l_handle : option Z)
| BeginUpdateResourceW (filename : string) (bDelete : Z)
| UpdateResourceW (l_handle res_type res_id res_lang : Z) (data : string)
    (size : Z)
| EndUpdateResourceW (l_handle : Z) (fDiscard : Z).

(** The exceptions these functions can end in: [WinError()],
    [UnicodeDecodeError] from decoding a file name, and [TypeError] from
    arithmetic on [None]. *)
Inductive failure := WinError | UnicodeDecodeError | OperandTypeError.

(** Computations that call into kernel32: the state is the list of the
    calls made so far, oldest first. *)
Definition K (A : Type) : Type := list k32_call -> (failure + A) * list k32_call.

#[global] Instance K_ret : MRet K := λ A a tr, (inr a, tr).

#[global] Instance K_bind : MBind K := λ A B k c tr,
  match c tr with
  | (inr a, tr') => k a tr'
  | (inl e, tr') => (inl e, tr')
  end.

Definition fail {A} (e : failure) : K A := λ tr, (inl e, tr).

Section System.
(** The system the module runs on: what a kernel32 call returns, given the
    calls made before it; how a byte string decodes in the file system
    encoding ([None]: it does not); and the [size] bytes of memory at
    [ptr]. *)
Variable answers : list k32_call -> k32_call -> Z.
Variable fs_decode : string -> option string.
Variable memory : list k32_call -> Z -> Z -> string.

(** [k32.f(args)] *)
Definition k32 (c : k32_call) : K Z := λ tr, (inr (answers tr c), tr ++ [c]).

(** [filename.decode(sys.getfilesystemencoding())] *)
Definition decode (s : string) : K string :=
  match fs_decode s with
  | Some u => mret u
  | None => fail UnicodeDecodeError
  end.

(** [ctypes.cast(r_ptr,POINTER(c_char))[0:r_size]] *)
Definition read_memory (r_ptr r_size : Z) : K string := λ tr,
  (inr (memory tr r_ptr r_size), tr).

(** [if not x: raise WinError()] *)
Definition check (x : Z) : K unit :=
  if decide (x = 0)%Z then fail WinError else mret tt.

Definition find_resource (filename_or_handle : pyarg) (res_type res_id : Z)
    (res_lang : option Z) : K (Z * Z) :=
  let res_lang := default _DEFAULT_RESLANG res_lang in
  '(l_handle, free_library) ←
    match filename_or_handle with
    | Name n =>
        filename ← match n with
                   | UnicodeName u => mret u
                   | StrName s => decode s
                   end;
        l_handle ← k32 (LoadLibraryExW filename None LOAD_LIBRARY_AS_DATAFILE);
        mret (Some l_handle, true)
    | Handle h => mret (Some h, false)
    | NoneArg => mret (None, false)
    end;
  r_handle ← k32 (FindResourceExW l_handle res_type res_id res_lang);
  check r_handle;;
  r_size ← k32 (SizeofResource l_handle r_handle);
  check r_size;;
  r_info ← k32 (LoadResource l_handle r_handle);
  check r_info;;
  r_ptr ← k32 (LockResource r_info);
  check r_ptr;;
  (if free_library : bool then k32 (FreeLibrary l_handle);; mret tt else mret tt);;
  match l_handle with
  | Some h => mret (r_ptr - h + 1, r_ptr - h + r_size + 1)%Z
  | None => fail OperandTypeError
  end.

Definition load_resource (filename_or_handle : pyarg) (res_type res_id : Z)
    (res_lang : Z) : K string :=
  '(l_handle, free_library) ←
    match filename_or_handle with
    | Name n =>
        filename ← match n with
                   | UnicodeName u => mret u
                   | StrName s => decode s
                   end;
        l_handle ← k32 (LoadLibraryExW filename None LOAD_LIBRARY_AS_DATAFILE);
        mret (Some l_handle, true)
    | Handle h => mret (Some h, false)
    | NoneArg => mret (None, false)
    end;
  r_handle ← k32 (FindResourceExW l_handle res_type res_id res_lang);
  check r_handle;;
  r_size ← k32 (SizeofResource l_handle r_handle);
  check r_size;;
  r_info ← k32 (LoadResource l_handle r_handle);
  check r_info;;
  r_ptr ← k32 (LockResource r_info);
  check r_ptr;;
  resource ← read_memory r_ptr r_size;
  (if free_library : bool then k32 (FreeLibrary l_handle);; mret tt else mret tt);;
  mret resource.

Definition add_resource (filename : pyname) (resource : string)
    (res_type res_id : Z) (res_lang : Z) : K unit :=
  filename ← match filename with
             | UnicodeName u => mret u
             | StrName s => decode s
             end;
  l_handle ← k32 (BeginUpdateResourceW filename 0);
  check l_handle;;
  updated ← k32 (UpdateResourceW l_handle res_type res_id res_lang resource
                   (Z.of_nat (String.length resource)));
  check updated;;
  ended ← k32 (EndUpdateResourceW l_handle 0);
  check ended.

Definition get_app_manifest (filename_or_handle : pyarg) : K string :=
  load_resource filename_or_handle RT_MANIFEST 1 _DEFAULT_RESLANG.

Definition is_safe_to_overwrite (source target : string) : bool := false.
End System.

(** Is the call a [FreeLibrary]? a [LoadLibraryExW]? an
    [EndUpdateResourceW]? *)
Definition is_FreeLibrary (c : k32_call) : bool :=
  match c with FreeLibrary _ => true | _ => false end.

Definition is_LoadLibraryExW (c : k32_call) : bool :=
  match c with LoadLibraryExW _ _ _ => true | _ => false end.

Definition is_EndUpdateResourceW (c : k32_call) : bool :=
  match c with EndUpdateResourceW _ _ => true | _ => false end.

End winres.

(** ** Data for the examples *)

(** A pickle for the examples: one character for the success flag, one for
    the kind of object, then the payload.  Application exception classes
    are not picklable in it. *)
Definition class_tag (c : exc_class) : option ascii :=
  match c with
  | AttributeError => Some "A" | NameError => Some "N" | EOFError => Some "O"
  | RuntimeError => Some "R" | TypeError => Some "T" | ValueError => Some "V"
  | IOError => Some "I" | PicklingError => Some "P" | UnpicklingError => Some "U"
  | KeyboardInterrupt => Some "K" | SystemExit => Some "X" | UserError _ => None
  end%char.

Definition tag_class (a : ascii) : option exc_class :=
  (if decide (a = "A") then Some AttributeError else
   if decide (a = "N") then Some NameError else
   if decide (a = "O") then Some EOFError else
   if decide (a = "R") then Some RuntimeError else
   if decide (a = "T") then Some TypeError else
   if decide (a = "V") then Some ValueError else
   if decide (a = "I") then Some IOError else
   if decide (a = "P") then Some PicklingError else
   if decide (a = "U") then Some UnpicklingError else
   if decide (a = "K") then Some KeyboardInterrupt else
   if decide (a = "X") then Some SystemExit else None)%char.

Definition line_dumps (r : bool * pyobj) : pyexc + string :=
  let flag := (if r.1 then "T" else "F")%char in
  match r.2 with
  | PyNone => inr (String flag "N")
  | PyBool b => inr (String flag (String "B" (if b then "1" else "0")))
  | PyInt z => inr (String flag (String "I" (NilZero.string_of_int (Z.to_int z))))
  | PyStr s => inr (String flag (String "S" s))
  | PyExc e =>
      match class_tag (exc_type e) with
      | Some t => inr (String flag (String "E" (String t (exc_msg e))))
      | None => inl (Exc PicklingError "cannot pickle")
      end
  end.

Definition line_loads (s : string) : pyexc + bool * pyobj :=
  let bad := inl (Exc UnpicklingError "bad pickle") in
  match s with
  | String f (String k rest) =>
      if decide (f = "T"%char ∨ f = "F"%char) then
        let success := bool_decide (f = "T"%char) in
        if decide (k = "N"%char) then inr (success, PyNone)
        else if decide (k = "B"%char) then
          inr (success, PyBool (bool_decide (rest = "1")))
        else if decide (k = "S"%char) then inr (success, PyStr rest)
        else if decide (k = "I"%char) then
          match NilZero.int_of_string rest with
          | Some i => inr (success, PyInt (Z.of_int i))
          | None => bad
          end
        else if decide (k = "E"%char) then
          match rest with
          | String t msg =>
              match tag_class t with
              | Some c => inr (success, PyExc (Exc c msg))
              | None => bad
              end
          | _ => bad
          end
        else bad
      else bad
  | _ => bad
  end.

Definition line_pickle : Pickle :=
  {| pickle_dumps := line_dumps; pickle_loads := line_loads |}.

(** The argument type [str]. *)
Definition py_str : argtype := λ raw, Returns (PyStr raw).

(** An application in the manner of the module's docstring:

    class Esky:
        @allow_from_sudo(str)
        def install_version(self, version): ... return True
        @allow_from_sudo(str)
        def uninstall_version(self, version): raise IOError("disk full")
        @allow_from_sudo()
        def _purge(self): ...
        @allow_from_sudo()
        def shutdown(self): raise SystemExit("0")
        def cleanup(self): ...
    class Frozen(Esky): pass
    class Bundled(Esky): pass
    class App(Frozen, Bundled): pass *)
Definition install_version : pyfunc :=
  allow_from_sudo [py_str]
    (PyFunc "install_version" None
       (λ _ args, match args with
                  | [PyStr _] => Returns (PyBool true)
                  | _ => Raises (Exc TypeError "install_version() takes exactly 2 arguments")
                  end)).

Definition uninstall_version : pyfunc :=
  allow_from_sudo [py_str]
    (PyFunc "uninstall_version" None (λ _ _, Raises (Exc IOError "disk full"))).

Definition _purge : pyfunc :=
  allow_from_sudo [] (PyFunc "_purge" None (λ _ _, Returns PyNone)).

Definition shutdown : pyfunc :=
  allow_from_sudo [] (PyFunc "shutdown" None (λ _ _, Raises (Exc SystemExit "0"))).

Definition cleanup : pyfunc :=
  PyFunc "cleanup" None (λ _ _, Returns PyNone).

Definition Esky : pyclass :=
  PyClass 1 None []
    (<["install_version" := install_version]>
       (<["uninstall_version" := uninstall_version]>
          (<["_purge" := _purge]>
             (<["shutdown" := shutdown]>
                (<["cleanup" := cleanup]> ∅))))).

Definition Frozen : pyclass := PyClass 2 None [Esky] ∅.
Definition Bundled : pyclass := PyClass 3 None [Esky] ∅.
Definition App : pyclass := PyClass 4 None [Frozen; Bundled] ∅.

Definition esky_app : pyobject := PyObject App (Instance "app" None).

(** The unprivileged process before [start], and after a successful
    [start] against a helper serving [esky_app]. *)
Definition unstarted {P} : process P := mkProcess [] (__init__ esky_app).

Definition ready_link : Linked :=
  mkLinked (clear_sudo_proxy esky_app) (mkEndpoint [] false ["READY"] false)
    true 1 [] false.

Definition started : process Linked :=
  mkProcess [ready_link] (mkSudoProxy "app" esky_app (Some 0) ∅).

(** The link after [close()] was answered: the helper wrote ["CLOSING"] and
    left [run], both ends are closed. *)
Definition stopped_link : Linked :=
  mkLinked (clear_sudo_proxy esky_app)
    (mkEndpoint [] true ["READY"; "CLOSING"] true) false 2 ["close"] true.

Definition stopped : process Linked :=
  mkProcess [stopped_link] (mkSudoProxy "app" esky_app (Some 0) ∅).


(** A process whose proxy holds the one pipe [p]. *)
Definition holding {P} (p : P) : process P :=
  mkProcess [p] (mkSudoProxy "app" esky_app (Some 0) ∅).

(** The argument type [int], on decimal literals. *)
Definition py_int : argtype := λ raw,
  match NilZero.int_of_string raw with
  | Some i => Returns (PyInt (Z.of_int i))
  | None => Raises (Exc ValueError ("invalid literal for int() with base 10: '"
                                    +:+ raw +:+ "'"))
  end.

(** A second application, derived from [Esky]:

    class Tool(Esky):
        @allow_from_sudo(int)
        def set_level(self, level): return level
        @allow_from_sudo()
        def verify(self): raise EskyBrokenError("bad checksum")
        def install_version(self, version): return False
        upgrade = Esky.__dict__["uninstall_version"] *)
Definition set_level : pyfunc :=
  allow_from_sudo [py_int]
    (PyFunc "set_level" None
       (λ _ args, match args with
                  | [PyInt z] => Returns (PyInt z)
                  | _ => Raises (Exc TypeError "set_level() takes exactly 2 arguments")
                  end)).

Definition verify : pyfunc :=
  allow_from_sudo []
    (PyFunc "verify" None
       (λ _ _, Raises (Exc (UserError "EskyBrokenError") "bad checksum"))).

Definition install_quietly : pyfunc :=
  PyFunc "install_version" None (λ _ _, Returns (PyBool false)).

Definition Tool : pyclass :=
  PyClass 5 None [Esky]
    (<["set_level" := set_level]>
       (<["verify" := verify]>
          (<["install_version" := install_quietly]>
             (<["upgrade" := uninstall_version]> ∅)))).

Definition tool : pyobject := PyObject Tool (Instance "tool" None).



(** A new-style hierarchy:

    class Updater(object):
        @allow_from_sudo(str)
        def install_version(self, version): ... return True
        def cleanup(self): ...
    class Patcher(Updater):
        @allow_from_sudo(int)
        def set_level(self, level): return level
        def close(self): ...

    In the [__mro__] of a class, [mro_entry c] stands for the class
    [c]. *)
Definition mro_entry (c : pyclass) : pyclass :=
  PyClass (cls_id c) (Some []) [] (__dict__ c).

Definition py_object : pyclass :=
  PyClass 10 (Some [PyClass 10 (Some []) [] ∅]) [] ∅.

Definition Updater_body : gmap string pyfunc :=
  <["install_version" := install_version]> (<["cleanup" := cleanup]> ∅).

Definition Updater : pyclass :=
  PyClass 11
    (Some [PyClass 11 (Some []) [] Updater_body; mro_entry py_object])
    [py_object] Updater_body.

Definition Patcher_body : gmap string pyfunc :=
  <["set_level" := set_level]>
    (<["close" := PyFunc "close" None (λ _ _, Returns PyNone)]> ∅).

Definition Patcher : pyclass :=
  PyClass 12
    (Some [PyClass 12 (Some []) [] Patcher_body; mro_entry Updater;
           mro_entry py_object])
    [Updater] Patcher_body.

Definition patcher : pyobject := PyObject Patcher (Instance "patcher" None).

Definition patcher_started : process Linked :=
  mkProcess
    [mkLinked (clear_sudo_proxy patcher) (mkEndpoint [] false ["READY"] false)
       true 1 [] false]
    (mkSudoProxy "patcher" patcher (Some 0) ∅).

(** A system on which every kernel32 call fails. *)
Definition failing_system : list winres.k32_call → winres.k32_call → Z :=
  λ _ _, 0%Z.

(** * Properties *)

(** ** The old-style walk and the lookup *)

Lemma oldstyle_mro_unfold cls seen :
  _get_oldstyle_mro cls seen =
  let '(l, seen') := oldstyle_bases _get_oldstyle_mro (__bases__ cls) ({[ cls_id cls ]} ∪ seen) in
  (cls :: l, seen').
Proof. destruct cls; reflexivity. Qed.

Lemma ancestor_of_base i mro bases d b a :
  b ∈ bases → ancestor b a → ancestor (PyClass i mro bases d) a.
Proof. intros Hb. by apply ancestor_base. Qed.

Lemma ancestor_trans a b c : ancestor a b → ancestor b c → ancestor a c.
Proof. induction 1; eauto using ancestor. Qed.

Lemma elem_of_classic_order cls a : a ∈ classic_order cls ↔ ancestor cls a.
Proof.
  revert a. induction cls as [i mro bases d IH] using pyclass_ind. intros a.
  cbn [classic_order]. rewrite elem_of_cons, list_elem_of_bind.
  rewrite Forall_forall in IH. split.
  - intros [->|(b & Hin & Hb)]; [constructor|].
    eapply ancestor_base; [exact Hb|]. by apply IH.
  - inversion 1 as [|? b ? Hb Hanc]; subst; [by left|right].
    exists b. split; [|done]. by apply IH.
Qed.

Lemma height_base b c : b ∈ __bases__ c → height b < height c.
Proof.
  destruct c as [i mro bases d]. cbn. induction 1; cbn; lia.
Qed.

Lemma height_ancestor c a : ancestor c a → height a ≤ height c.
Proof.
  induction 1 as [|c b a Hb _ IH]; [done|].
  apply height_base in Hb. lia.
Qed.

Lemma ids_nil : ids [] = ∅.
Proof. reflexivity. Qed.

Lemma ids_cons c l : ids (c :: l) = {[ cls_id c ]} ∪ ids l.
Proof. reflexivity. Qed.

Lemma ids_app l1 l2 : ids (l1 ++ l2) = ids l1 ∪ ids l2.
Proof. unfold ids. rewrite fmap_app. apply list_to_set_app_L. Qed.

Lemma elem_of_ids i l : i ∈ ids l ↔ ∃ c, c ∈ l ∧ cls_id c = i.
Proof.
  unfold ids. rewrite elem_of_list_to_set, list_elem_of_fmap. naive_solver.
Qed.

Lemma unseen_app seen l1 l2 :
  unseen seen (l1 ++ l2) = unseen seen l1 ++ unseen (ids l1 ∪ seen) l2.
Proof.
  revert seen. induction l1 as [|c l1 IH]; intros seen;
    rewrite <-?app_comm_cons, ?app_nil_l; cbn [unseen].
  - by rewrite ids_nil, (left_id_L ∅ (∪)).
  - rewrite ids_cons. case_decide.
    + rewrite IH. do 2 f_equal. set_solver.
    + cbn [app]. rewrite IH. do 3 f_equal. set_solver.
Qed.

(** Classes whose whole ancestry is already in [seen] contribute nothing. *)
Lemma unseen_all_seen seen l :
  (∀ c, c ∈ l → cls_id c ∈ seen) → unseen seen l = [].
Proof.
  induction l as [|c l IH]; intros Hall; cbn; [done|].
  rewrite decide_True by (apply Hall; left).
  apply IH. intros c' ?. apply Hall. by right.
Qed.

Lemma ids_unseen seen l : ids (unseen seen l) ∪ seen = ids l ∪ seen.
Proof.
  revert seen. induction l as [|c l IH]; intros seen; cbn [unseen]; [done|].
  case_decide.
  - rewrite IH, ids_cons. set_solver.
  - rewrite !ids_cons. specialize (IH ({[cls_id c]} ∪ seen)).
    revert IH. generalize (ids (unseen ({[cls_id c]} ∪ seen) l)) (ids l).
    intros A B IH. apply set_eq. intros j.
    assert (j ∈ A ∪ ({[cls_id c]} ∪ seen) ↔ j ∈ B ∪ ({[cls_id c]} ∪ seen))
      by (by rewrite IH).
    clear IH. set_solver.
Qed.

Lemma unseen_sublist seen l c : c ∈ unseen seen l → c ∈ l.
Proof.
  revert seen. induction l as [|c' l IH]; intros seen; cbn; [done|].
  case_decide; rewrite ?elem_of_cons; naive_solver.
Qed.

Section Walk.
Variable root : pyclass.
Hypothesis distinct : identities_distinct root.

Lemma oldstyle_mro_walk cls seen :
  ancestor root cls →
  cls_id cls ∉ seen →
  closed_below cls seen →
  _get_oldstyle_mro cls seen =
    (unseen seen (classic_order cls), ids (classic_order cls) ∪ seen).
Proof.
  revert seen. induction cls as [i mro bases d IH] using pyclass_ind.
  intros seen Hroot Hfresh Hclosed.
  rewrite oldstyle_mro_unfold.
  cbn [classic_order unseen cls_id __bases__] in *.
  rewrite decide_False by done.
  set (cls := PyClass i mro bases d) in *.
  (* the loop over the bases *)
  assert (Hloop : ∀ done todo seen',
    bases = done ++ todo →
    seen' = ids (done ≫= classic_order) ∪ ({[i]} ∪ seen) →
    oldstyle_bases _get_oldstyle_mro todo seen' =
      (unseen seen' (todo ≫= classic_order),
       ids (todo ≫= classic_order) ∪ seen')).
  { intros done todo. revert done.
    induction todo as [|b todo IHtodo]; intros done seen' Hsplit Hseen'.
    - change ([] ≫= classic_order) with (@nil pyclass).
      cbn [oldstyle_bases unseen]. by rewrite ids_nil, (left_id_L ∅ (∪)).
    - change ((b :: todo) ≫= classic_order)
        with (classic_order b ++ (todo ≫= classic_order)).
      cbn [oldstyle_bases].
      assert (Hb : b ∈ bases) by (rewrite Hsplit; set_solver).
      assert (Hcb' : ancestor cls b).
      { eapply ancestor_of_base; [exact Hb|constructor]. }
      assert (Hrb : ancestor root b).
      { eapply ancestor_trans; [exact Hroot|exact Hcb']. }
      assert (Hcb : closed_below b seen').
      { intros c a Hbc Hc Hca. subst seen'.
        apply elem_of_union in Hc as [Hc|Hc].
        - (* seen while walking an earlier base *)
          apply elem_of_union_l. apply elem_of_ids in Hc as (c' & Hc' & Hid).
          assert (c' = c) as ->.
          { apply distinct; [| |done].
            - apply list_elem_of_bind in Hc' as (b' & Hc' & Hb').
              apply elem_of_classic_order in Hc'.
              eapply ancestor_trans; [exact Hroot|].
              eapply ancestor_of_base; [|exact Hc']. rewrite Hsplit. set_solver.
            - eapply ancestor_trans; [exact Hrb|done]. }
          apply list_elem_of_bind in Hc' as (b' & Hc' & Hb').
          apply elem_of_ids. exists a. split; [|done].
          apply list_elem_of_bind. exists b'. split; [|done].
          apply elem_of_classic_order. apply elem_of_classic_order in Hc'.
          by eapply ancestor_trans.
        - apply elem_of_union_r.
          apply elem_of_union in Hc as [Hc|Hc].
          + (* the class being walked cannot sit under its own base *)
            apply elem_of_singleton in Hc.
            assert (c = cls) as ->.
            { apply distinct; [|done|done].
              eapply ancestor_trans; [exact Hrb|done]. }
            apply height_ancestor in Hbc.
            assert (height b < height cls) by (by apply height_base). lia.
          + apply elem_of_union_r. eapply Hclosed; [|exact Hc|exact Hca].
            by eapply ancestor_trans. }
      rewrite Forall_forall in IH.
      case_decide as Hseen.
      + (* already seen: its whole ancestry is seen, nothing is yielded *)
        rewrite (IHtodo (done ++ [b]) seen').
        * rewrite unseen_app, ids_app.
          rewrite (unseen_all_seen seen' (classic_order b)).
          2:{ intros c Hc. apply elem_of_classic_order in Hc.
              eapply Hcb; [constructor|done|done]. }
          cbn [app]. f_equal.
          -- f_equal. 
             assert (ids (classic_order b) ⊆ seen'); [|set_solver].
             intros j (c & Hc & <-)%elem_of_ids.
             apply elem_of_classic_order in Hc.
             eapply Hcb; [constructor|done|done].
          -- assert (ids (classic_order b) ⊆ seen'); [|set_solver].
             intros j (c & Hc & <-)%elem_of_ids.
             apply elem_of_classic_order in Hc.
             eapply Hcb; [constructor|done|done].
        * by rewrite <-(assoc_L (++)).
        * rewrite bind_app, ids_app. cbn. rewrite (right_id_L [] (++)).
          assert (ids (classic_order b) ⊆ seen'); [|set_solver].
          intros j (c & Hc & <-)%elem_of_ids.
          apply elem_of_classic_order in Hc.
          eapply Hcb; [constructor|done|done].
      + rewrite (IH b Hb seen' Hrb Hseen Hcb).
        rewrite (IHtodo (done ++ [b]) (ids (classic_order b) ∪ seen')).
        * rewrite unseen_app, ids_app. f_equal. set_solver.
        * by rewrite <-(assoc_L (++)).
        * rewrite bind_app, ids_app. cbn. rewrite (right_id_L [] (++)).
          set_solver. }
  rewrite (Hloop [] bases ({[i]} ∪ seen)); [|done|].
  - f_equal. rewrite ids_cons. change (cls_id cls) with i. set_solver.
  - change ([] ≫= classic_order) with (@nil pyclass).
    by rewrite ids_nil, (left_id_L ∅ (∪)).
Qed.
End Walk.

(** Started on an empty [seen], the old-style walk yields the classic
    depth-first, left-to-right order with later copies of a class dropped. *)
Lemma oldstyle_mro_classic cls :
  identities_distinct cls →
  (_get_oldstyle_mro cls ∅).1 = unseen ∅ (classic_order cls).
Proof.
  intros Hd. rewrite (oldstyle_mro_walk cls Hd); [done|constructor|set_solver|].
  intros c a _ Hc. set_solver.
Qed.

(** *** The lookup loop *)

Lemma first_declared_None l m :
  first_declared l m = None ↔ ∀ c, c ∈ l → declared c m = None.
Proof.
  induction l as [|c l IH]; cbn.
  - split; [|done]. by intros _ c ?%elem_of_nil.
  - destruct (declared c m) eqn:Hc.
    + split; [done|]. intros Hall. rewrite <-Hc. apply Hall. by left.
    + rewrite IH. split.
      * intros Hall c' [->|?]%elem_of_cons; auto.
      * intros Hall c' ?. apply Hall. by right.
Qed.

Lemma first_declared_Some l m argtypes :
  first_declared l m = Some argtypes ↔
  ∃ before base after,
    l = before ++ base :: after ∧
    (∀ c, c ∈ before → declared c m = None) ∧
    declared base m = Some argtypes.
Proof.
  induction l as [|c l IH]; cbn.
  - split; [done|]. intros (before & ? & ? & Hl & _). by destruct before.
  - destruct (declared c m) eqn:Hc.
    + split.
      * intros [= ->]. exists [], c, l. split; [done|]. split; [|done].
        by intros c' ?%elem_of_nil.
      * intros ([|c' before] & base & after & [= ]& Hnone & Hbase); subst.
        -- congruence.
        -- rewrite Hnone in Hc; [done|by left].
    + rewrite IH. split.
      * intros (before & base & after & -> & Hnone & Hbase).
        exists (c :: before), base, after. split; [done|]. split; [|done].
        intros c' [->|?]%elem_of_cons; auto.
      * intros ([|c' before] & base & after & [= ]& Hnone & Hbase); subst.
        -- congruence.
        -- exists before, base, after. split; [done|]. split; [|done].
           intros c'' ?. apply Hnone. by right.
Qed.

(** Dropping later copies of classes already met does not change what the
    lookup finds. *)
Lemma first_declared_unseen before l m :
  (∀ a b, a ∈ before ++ l → b ∈ before ++ l → cls_id a = cls_id b → a = b) →
  (∀ c, c ∈ before → declared c m = None) →
  first_declared (unseen (ids before) l) m = first_declared l m.
Proof.
  revert before. induction l as [|c l IH]; intros before Hdist Hnone; [done|].
  cbn [unseen first_declared]. case_decide as Hseen.
  - apply elem_of_ids in Hseen as (c' & Hc' & Hid).
    assert (c' = c) as ->.
    { apply Hdist; [set_solver|set_solver|done]. }
    rewrite (Hnone c Hc'). apply IH; [|done].
    intros a b Ha Hb. apply Hdist; set_solver.
  - cbn [first_declared]. destruct (declared c m) eqn:Hc; [done|].
    specialize (IH (before ++ [c])).
    rewrite ids_app, ids_cons, ids_nil in IH.
    replace (ids before ∪ ({[cls_id c]} ∪ ∅)) with ({[cls_id c]} ∪ ids before)
      in IH by set_solver.
    apply IH.
    + intros a b. rewrite <-(assoc_L (++)). apply Hdist.
    + intros c' [?|Hc']%elem_of_app; [auto|].
      apply list_elem_of_singleton in Hc' as ->. done.
Qed.

(** The allowlist lookup follows the method resolution order. *)
Lemma get_sudo_argtypes_resolution_order obj m :
  identities_distinct (__class__ obj) →
  _get_sudo_argtypes obj m = first_declared (resolution_order obj) m.
Proof.
  intros Hd. unfold _get_sudo_argtypes, _get_mro, resolution_order.
  destruct (__mro__ (__class__ obj)); [done|].
  rewrite (oldstyle_mro_classic _ Hd).
  apply (first_declared_unseen []); [|by intros ? ?%elem_of_nil].
  intros a b Ha%elem_of_classic_order Hb%elem_of_classic_order. by apply Hd.
Qed.

(** Values that stand for the same class carry the same declarations. *)
Lemma declared_same_class a b m : same_class a b → declared a m = declared b m.
Proof. unfold declared. by intros [_ ->]. Qed.

Lemma resolution_order_ancestor obj c :
  well_formed (__class__ obj) →
  c ∈ resolution_order obj →
  ∃ a, ancestor (__class__ obj) a ∧ same_class c a.
Proof.
  intros [_ Hmro]. unfold resolution_order.
  destruct (__mro__ (__class__ obj)) as [mro|] eqn:E.
  - by apply Hmro.
  - intros Hc%elem_of_classic_order. by exists c.
Qed.

Lemma ancestor_resolution_order obj a :
  well_formed (__class__ obj) →
  ancestor (__class__ obj) a →
  ∃ c, c ∈ resolution_order obj ∧ same_class c a.
Proof.
  intros [_ Hmro]. unfold resolution_order.
  destruct (__mro__ (__class__ obj)) as [mro|] eqn:E.
  - by apply Hmro.
  - intros Ha%elem_of_classic_order. by exists a.
Qed.


Lemma get_sudo_argtypes_None obj methname :
  well_formed (__class__ obj) →
  _get_sudo_argtypes obj methname = None ↔
  ∀ c, ancestor (__class__ obj) c → declared c methname = None.
Proof.
  intros Hwf. rewrite (get_sudo_argtypes_resolution_order _ _ (proj1 Hwf)).
  rewrite first_declared_None. split.
  - intros H a Ha.
    destruct (ancestor_resolution_order obj a Hwf Ha) as (c & Hc & Hsame).
    rewrite <-(declared_same_class c a) by done. by apply H.
  - intros H c Hc.
    destruct (resolution_order_ancestor obj c Hwf Hc) as (a & Ha & Hsame).
    rewrite (declared_same_class c a) by done. by apply H.
Qed.







(** ** Lookups depend on the class only *)

Lemma get_mro_class a b : __class__ a = __class__ b → _get_mro a = _get_mro b.
Proof. unfold _get_mro. by intros ->. Qed.

Lemma get_sudo_argtypes_class a b m :
  __class__ a = __class__ b → _get_sudo_argtypes a m = _get_sudo_argtypes b m.
Proof. unfold _get_sudo_argtypes. by intros ->%get_mro_class. Qed.

Lemma getattr_class a b m :
  __class__ a = __class__ b → getattr a m = getattr b m.
Proof. unfold getattr. by intros ->%get_mro_class. Qed.

(** A declared method is defined: [getattr] cannot fail after the lookup
    succeeded. *)
Lemma first_declared_defined l m argtypes :
  first_declared l m = Some argtypes → is_Some (first_defined l m).
Proof.
  induction l as [|c l IH]; cbn; [done|]. unfold declared.
  destruct (__dict__ c !! m); [by eauto|]. exact IH.
Qed.

Lemma declared_getattr obj m argtypes :
  _get_sudo_argtypes obj m = Some argtypes → is_Some (getattr obj m).
Proof. apply first_declared_defined. Qed.

(** ** The monad, step by step *)

Lemma bind_Ok {S A B} (c : M S A) (k : A → M S B) s a s' :
  c s = Ok a s' → (c ≫= k) s = k a s'.
Proof. unfold mbind, M_bind. by intros ->. Qed.

Lemma bind_Raise {S A B} (c : M S A) (k : A → M S B) s e s' :
  c s = Raise e s' → (c ≫= k) s = Raise e s'.
Proof. unfold mbind, M_bind. by intros ->. Qed.

Lemma bind_Block {S A B} (c : M S A) (k : A → M S B) s s' :
  c s = Block s' → (c ≫= k) s = Block s'.
Proof. unfold mbind, M_bind. by intros ->. Qed.

(** ** SudoProxy.__getattr__ *)

Section GetattrFacts.
Context {P : Type}.
Implicit Types w : process P.

Lemma getattr_private attr w :
  startswith_underscore attr = true →
  __getattr__ attr w = Raise (Exc AttributeError attr) w.
Proof. unfold __getattr__. by intros ->. Qed.

Lemma getattr_unlisted attr w :
  startswith_underscore attr = false →
  _get_sudo_argtypes (self_target (self w)) attr = None →
  __getattr__ attr w = Raise (not_allowed attr) w.
Proof. unfold __getattr__. by intros -> ->. Qed.

Lemma getattr_listed attr w argtypes :
  startswith_underscore attr = false →
  _get_sudo_argtypes (self_target (self w)) attr = Some argtypes →
  ∃ method,
    getattr (self_target (self w)) attr = Some method ∧
    __getattr__ attr w =
      Ok (Wrapper (func_name method) (self_pipe (self w)))
         (remember attr (Wrapper (func_name method) (self_pipe (self w))) w).
Proof.
  intros Hpub Hlist. destruct (declared_getattr _ _ _ Hlist) as [method Hm].
  exists method. split; [done|]. unfold __getattr__. by rewrite Hpub, Hlist, Hm.
Qed.

(** *** Attribute access *)

Lemma own_attribute_false attr :
  own_attribute attr = false →
  bool_decide (attr ∈ data_descriptors ++ instance_attributes) = false ∧
  bool_decide (attr ∈ class_attributes ++ object_attributes) = false.
Proof.
  unfold own_attribute. rewrite !bool_decide_eq_false, !elem_of_app. tauto.
Qed.

Lemma own_attribute_true attr :
  own_attribute attr = true →
  bool_decide (attr ∈ data_descriptors ++ instance_attributes) = true ∨
  bool_decide (attr ∈ class_attributes ++ object_attributes) = true.
Proof.
  unfold own_attribute. rewrite !bool_decide_eq_true, !elem_of_app. tauto.
Qed.

(** A name that ordinary lookup does not find goes to [__getattr__]. *)
Lemma getattribute_missing attr w :
  own_attribute attr = false →
  self_dict (self w) !! attr = None →
  getattribute attr w = (f ← __getattr__ attr; mret (Forwarder f)) w.
Proof.
  intros [H1 H2]%own_attribute_false Hnone. unfold getattribute.
  by rewrite H1, Hnone, H2.
Qed.

Lemma getattribute_own attr w :
  own_attribute attr = true →
  self_dict (self w) !! attr = None →
  getattribute attr w = Ok (Own attr) w.
Proof.
  intros Hown Hnone. unfold getattribute. rewrite Hnone.
  destruct (bool_decide (attr ∈ data_descriptors ++ instance_attributes)) eqn:H1;
    [done|].
  destruct (own_attribute_true attr Hown) as [H|H]; [congruence|by rewrite H].
Qed.

Lemma getattribute_stored attr w f :
  own_attribute attr = false →
  self_dict (self w) !! attr = Some f →
  getattribute attr w = Ok (Forwarder f) w.
Proof.
  intros [H1 _]%own_attribute_false Hf. unfold getattribute. by rewrite H1, Hf.
Qed.

Lemma remember_stored attr f w :
  self_dict (self w) !! attr = Some f → remember attr f w = w.
Proof.
  destruct w as [h [n t p d]]. unfold remember. cbn. intros Hf.
  by rewrite insert_id.
Qed.

(** Access to an allowed name that is not the proxy's own gives the
    wrapper for the current pipe, stored before or built now, provided a
    stored one is that wrapper. *)
Lemma getattribute_listed attr w argtypes method :
  startswith_underscore attr = false →
  own_attribute attr = false →
  _get_sudo_argtypes (self_target (self w)) attr = Some argtypes →
  getattr (self_target (self w)) attr = Some method →
  (∀ g, self_dict (self w) !! attr = Some g →
        g = Wrapper (func_name method) (self_pipe (self w))) →
  getattribute attr w =
    Ok (Forwarder (Wrapper (func_name method) (self_pipe (self w))))
       (remember attr (Wrapper (func_name method) (self_pipe (self w))) w).
Proof.
  intros Hpub Hown Hlist Hget Hstored.
  destruct (self_dict (self w) !! attr) as [g|] eqn:Hg.
  - rewrite (Hstored g eq_refl) in Hg.
    rewrite (remember_stored _ _ _ Hg). by apply getattribute_stored.
  - rewrite getattribute_missing by done.
    destruct (getattr_listed attr w argtypes Hpub Hlist) as (method' & Hget' & Hattr).
    assert (method' = method) as -> by congruence.
    by erewrite bind_Ok; [|exact Hattr].
Qed.

End GetattrFacts.

(** C10 (amended).  For every attribute name that begins with an
    underscore, [__getattr__] raises [AttributeError(attr)] at once:
    whatever the target declares, the allowlist plays no part and the
    process (its pipes included) is left as it was.  Attribute access on
    the proxy therefore ends in that error for every such name that the
    proxy does not have by itself and under which nothing is stored; the
    special names that it has by itself ([__init__], [__class__],
    [__dict__], ...) are found by ordinary lookup, and nothing is written
    for them either. *)
Theorem private_names_never_forwarded {P} (attr : string) (w : process P) :
  startswith_underscore attr = true →
  __getattr__ attr w = Raise (Exc AttributeError attr) w ∧
  (self_dict (self w) !! attr = None →
   getattribute attr w =
     if own_attribute attr then Ok (Own attr) w
     else Raise (Exc AttributeError attr) w).
Proof.
  intros Hpriv. split; [by apply getattr_private|]. intros Hnone.
  destruct (own_attribute attr) eqn:Hown.
  - by apply getattribute_own.
  - rewrite getattribute_missing by done.
    by erewrite bind_Raise; [|by apply getattr_private].
Qed.

(** ** The channel end *)

Lemma endpoint_read_message ep msg rest :
  closed ep = false → inbox ep = msg :: rest →
  pipe_read ep = Ok msg (mkEndpoint rest (peer_gone ep) (outbox ep) false).
Proof. cbn. unfold endpoint_read. by intros -> ->. Qed.

Lemma endpoint_read_wait ep :
  closed ep = false → inbox ep = [] → peer_gone ep = false →
  pipe_read ep = Block ep.
Proof. cbn. unfold endpoint_read. by intros -> -> ->. Qed.

Lemma endpoint_read_eof ep :
  closed ep = false → inbox ep = [] → peer_gone ep = true →
  pipe_read ep = Raise (Exc EOFError "") ep.
Proof. cbn. unfold endpoint_read. by intros -> -> ->. Qed.

Lemma endpoint_write_open ep msg :
  closed ep = false →
  pipe_write msg ep =
    Ok tt (mkEndpoint (inbox ep) (peer_gone ep) (outbox ep ++ [msg]) false).
Proof. cbn. unfold endpoint_write. by intros ->. Qed.

Lemma endpoint_io_closed ep msg :
  closed ep = true →
  pipe_read ep = Raise closed_error ep ∧
  pipe_write msg ep = Raise closed_error ep.
Proof. cbn. unfold endpoint_read, endpoint_write. by intros ->. Qed.

(** ** Operations on the pipe held by the proxy *)

Section OnPipe.
Context {P : Type}.
Implicit Types w : process P.

Lemma on_pipe_Ok {A} r attr (op : M P A) w p a p' :
  heap w !! r = Some p → op p = Ok a p' →
  on_pipe (Some r) attr op w = Ok a (with_pipe r p' w).
Proof. unfold on_pipe. by intros -> ->. Qed.

Lemma on_pipe_Raise {A} r attr (op : M P A) w p e p' :
  heap w !! r = Some p → op p = Raise e p' →
  on_pipe (Some r) attr op w = Raise e (with_pipe r p' w).
Proof. unfold on_pipe. by intros -> ->. Qed.

Lemma on_pipe_Block {A} r attr (op : M P A) w p p' :
  heap w !! r = Some p → op p = Block p' →
  on_pipe (Some r) attr op w = Block (with_pipe r p' w).
Proof. unfold on_pipe. by intros -> ->. Qed.

Lemma on_self_pipe_Ok {A} r attr (op : M P A) w p a p' :
  self_pipe (self w) = Some r → heap w !! r = Some p → op p = Ok a p' →
  on_self_pipe attr op w = Ok a (with_pipe r p' w).
Proof. unfold on_self_pipe. intros ->. apply on_pipe_Ok. Qed.

Lemma on_self_pipe_Raise {A} r attr (op : M P A) w p e p' :
  self_pipe (self w) = Some r → heap w !! r = Some p → op p = Raise e p' →
  on_self_pipe attr op w = Raise e (with_pipe r p' w).
Proof. unfold on_self_pipe. intros ->. apply on_pipe_Raise. Qed.

Lemma on_self_pipe_Block {A} r attr (op : M P A) w p p' :
  self_pipe (self w) = Some r → heap w !! r = Some p → op p = Block p' →
  on_self_pipe attr op w = Block (with_pipe r p' w).
Proof. unfold on_self_pipe. intros ->. apply on_pipe_Block. Qed.

Lemma with_pipe_lookup r p p' w :
  heap w !! r = Some p → heap (with_pipe r p' w) !! r = Some p'.
Proof.
  intros Hr. cbn. apply list_lookup_insert_eq. by eapply lookup_lt_Some.
Qed.

Lemma with_pipe_twice r p p' w :
  with_pipe r p' (with_pipe r p w) = with_pipe r p' w.
Proof. unfold with_pipe. cbn. by rewrite list_insert_insert_eq. Qed.

Lemma with_pipe_same r p w : heap w !! r = Some p → with_pipe r p w = w.
Proof.
  intros Hr. destruct w as [h s]. unfold with_pipe. cbn in *.
  by rewrite list_insert_id.
Qed.
Lemma bound_to_pipe (p : P) w :
  self_pipe (self (bound_to p w)) = Some (length (heap w)) ∧
  heap (bound_to p w) !! length (heap w) = Some p.
Proof. split; [done|]. cbn. by apply list_lookup_middle. Qed.

Lemma bound_to_with_pipe (p p' : P) w :
  with_pipe (length (heap w)) p' (bound_to p w) = bound_to p' w.
Proof.
  unfold with_pipe, bound_to. cbn. f_equal.
  rewrite insert_app_r_alt by done. by rewrite Nat.sub_diag.
Qed.
End OnPipe.

(** ** close and start over a channel end *)

Section CloseStart.
Implicit Types w : process Endpoint.

Lemma close_outcome w r ep :
  self_pipe (self w) = Some r → heap w !! r = Some ep → closed ep = false →
  close w =
    match inbox ep with
    | ack :: rest =>
        Ok tt (with_pipe r
                 (mkEndpoint rest (peer_gone ep) (outbox ep ++ ["close"]) true) w)
    | [] =>
        if peer_gone ep
        then Raise (Exc EOFError "") (with_pipe r (asked_to_close ep) w)
        else Block (with_pipe r (asked_to_close ep) w)
    end.
Proof.
  intros Hr Hep Hopen. unfold close.
  pose proof (endpoint_write_open ep "close" Hopen) as Hw.
  fold (asked_to_close ep) in Hw.
  erewrite bind_Ok; [|by eapply on_self_pipe_Ok].
  assert (Hep1 : heap (with_pipe r (asked_to_close ep) w) !! r
                 = Some (asked_to_close ep)) by by eapply with_pipe_lookup.
  assert (Hr1 : self_pipe (self (with_pipe r (asked_to_close ep) w)) = Some r)
    by done.
  destruct (inbox ep) as [|ack rest] eqn:Hin.
  - destruct (peer_gone ep) eqn:Hpeer.
    + erewrite bind_Raise; [done|].
      erewrite on_self_pipe_Raise; [|done|done|by apply endpoint_read_eof].
      by rewrite with_pipe_twice.
    + erewrite bind_Block; [done|].
      erewrite on_self_pipe_Block; [|done|done|by apply endpoint_read_wait].
      by rewrite with_pipe_twice.
  - erewrite bind_Ok.
    2:{ eapply on_self_pipe_Ok; [done|done|].
        by apply (endpoint_read_message _ ack rest). }
    rewrite with_pipe_twice.
    erewrite on_self_pipe_Ok; [|done|by eapply with_pipe_lookup|reflexivity].
    by rewrite with_pipe_twice.
Qed.

Lemma close_on_closed w r ep :
  self_pipe (self w) = Some r → heap w !! r = Some ep → closed ep = true →
  close w = Raise closed_error w.
Proof.
  intros Hr Hep Hclosed. unfold close.
  erewrite bind_Raise; [done|].
  erewrite on_self_pipe_Raise; [|done|done|by apply endpoint_io_closed].
  by rewrite with_pipe_same.
Qed.

Lemma close_completed w w1 :
  close w = Ok tt w1 →
  ∃ r ep, self_pipe (self w1) = Some r ∧ heap w1 !! r = Some ep ∧ closed ep = true.
Proof.
  intros Hclose.
  destruct (self_pipe (self w)) as [r|] eqn:Hr.
  2:{ unfold close, on_self_pipe, mbind, M_bind in Hclose.
      by rewrite Hr in Hclose. }
  destruct (heap w !! r) as [ep|] eqn:Hep.
  2:{ unfold close, on_self_pipe, mbind, M_bind, on_pipe in Hclose.
      by rewrite Hr, Hep in Hclose. }
  destruct (closed ep) eqn:Hc.
  { by rewrite (close_on_closed w r ep) in Hclose. }
  rewrite (close_outcome w r ep) in Hclose by done.
  destruct (inbox ep) as [|ack rest]; [by destruct (peer_gone ep)|].
  injection Hclose as <-. exists r. eexists. split; [done|].
  split; [by eapply with_pipe_lookup|done].
Qed.
End CloseStart.

Section Start.
Implicit Types w : process Endpoint.

(** [start()] on a channel end that is open, by what the end delivers. *)
Lemma start_outcome (ep : Endpoint) w :
  closed ep = false →
  start ep w =
    match inbox ep with
    | [] =>
        if peer_gone ep then Raise (Exc EOFError "") (bound_to ep w)
        else Block (bound_to ep w)
    | first :: more =>
        if decide (first = "READY") then
          Ok tt (bound_to (mkEndpoint more (peer_gone ep) (outbox ep) false) w)
        else
          match more with
          | ack :: rest =>
              Raise (Exc RuntimeError "failed to spawn helper app")
                (bound_to (mkEndpoint rest (peer_gone ep)
                             (outbox ep ++ ["close"]) true) w)
          | [] =>
              let asked := mkEndpoint [] (peer_gone ep) (outbox ep ++ ["close"]) false in
              if peer_gone ep then Raise (Exc EOFError "") (bound_to asked w)
              else Block (bound_to asked w)
          end
    end.
Proof.
  intros Hopen. unfold start.
  erewrite bind_Ok; [|reflexivity].
  destruct (bound_to_pipe ep w) as [Hr Hep].
  destruct (inbox ep) as [|first more] eqn:Hin.
  - destruct (peer_gone ep) eqn:Hpeer.
    + erewrite bind_Raise; [done|].
      erewrite on_self_pipe_Raise; [|done|done|by apply endpoint_read_eof].
      by rewrite bound_to_with_pipe.
    + erewrite bind_Block; [done|].
      erewrite on_self_pipe_Block; [|done|done|by apply endpoint_read_wait].
      by rewrite bound_to_with_pipe.
  - erewrite bind_Ok.
    2:{ eapply on_self_pipe_Ok; [done|done|].
        by apply (endpoint_read_message _ first more). }
    rewrite bound_to_with_pipe.
    set (ep1 := mkEndpoint more (peer_gone ep) (outbox ep) false).
    destruct (bound_to_pipe ep1 w) as [Hr1 Hep1].
    case_decide as Hready; case_decide as Hready'; try done.
    pose proof (close_outcome (bound_to ep1 w) _ ep1 Hr1 Hep1 eq_refl) as Hclose.
    cbn [inbox peer_gone outbox ep1] in Hclose.
    unfold asked_to_close in Hclose. cbn [inbox peer_gone outbox ep1] in Hclose.
    destruct more as [|ack rest].
    + destruct (peer_gone ep); rewrite bound_to_with_pipe in Hclose.
      * by erewrite bind_Raise.
      * by erewrite bind_Block.
    + rewrite bound_to_with_pipe in Hclose. by erewrite bind_Ok.
Qed.
End Start.

(** C7 (amended).  [start()] reads the first message of the channel the
    launcher returned.  When that message is not ["READY"], [start()]
    calls [close()], which writes ["close"] and reads the peer's reply;
    once that reply has arrived the channel is closed, and [start()] then
    raises [RuntimeError("failed to spawn helper app")] to its caller. *)
Theorem start_without_ready (ep : Endpoint) (w : process Endpoint)
    (first ack : string) (rest : list string) :
  closed ep = false →
  inbox ep = first :: ack :: rest →
  first ≠ "READY" →
  start ep w =
    Raise (Exc RuntimeError "failed to spawn helper app")
      (bound_to (mkEndpoint rest (peer_gone ep) (outbox ep ++ ["close"]) true) w).
Proof.
  intros Hopen Hin Hfirst. rewrite start_outcome by done. rewrite Hin.
  by rewrite decide_False.
Qed.

(** C8 (amended).  When the helper is gone and the proxy's pipe is still
    open, [close()] still writes ["close"].  If nothing is left to read, its read of the
    acknowledgement fails with end-of-stream and that [EOFError] reaches
    the caller; [pipe.close()] is not run, the channel stays open.  If a
    message the helper wrote before it died is still unread, [close()]
    takes it for the acknowledgement, whatever it says, closes the channel
    and returns. *)
Theorem close_after_helper_died (w : process Endpoint) (r : nat)
    (ep : Endpoint) :
  self_pipe (self w) = Some r →
  heap w !! r = Some ep →
  closed ep = false →
  peer_gone ep = true →
  close w =
    match inbox ep with
    | [] =>
        Raise (Exc EOFError "")
          (with_pipe r (mkEndpoint [] true (outbox ep ++ ["close"]) false) w)
    | unread :: rest =>
        Ok tt
          (with_pipe r (mkEndpoint rest true (outbox ep ++ ["close"]) true) w)
    end.
Proof.
  intros Hr Hep Hopen Hpeer. rewrite (close_outcome w r ep) by done.
  rewrite Hpeer. destruct (inbox ep) as [|unread rest] eqn:Hin; [|done].
  unfold asked_to_close. by rewrite Hin, Hpeer.
Qed.

(** C9 (amended).  [close()] is not idempotent: once a first [close()]
    has completed, a second one fails in its write on the closed channel;
    it raises that error, it does not wait, and it changes nothing. *)
Theorem close_twice (w w1 : process Endpoint) :
  close w = Ok tt w1 →
  close w1 = Raise closed_error w1.
Proof.
  intros (r & ep & Hr & Hep & Hclosed)%close_completed.
  by eapply close_on_closed.
Qed.

(** ** The serve loop over a channel end *)

Section Serve.
Context `{!Pickle}.
Implicit Types ep : Endpoint.

Lemma serve_once_unlisted target ep methname rest :
  closed ep = false → inbox ep = methname :: rest →
  methname ≠ "close" →
  _get_sudo_argtypes target methname = None →
  serve_once target ep =
    Raise (name_error "attr") (mkEndpoint rest (peer_gone ep) (outbox ep) false).
Proof.
  intros Hopen Hin Hne Hnone. unfold serve_once, try_except.
  erewrite bind_Ok; [|by apply endpoint_read_message].
  unfold handle. rewrite decide_False by done.
  unfold dispatch. by rewrite Hnone.
Qed.

Lemma name_error_attr :
  name_error "attr" = Exc NameError "global name 'attr' is not defined".
Proof. reflexivity. Qed.

Lemma clear_sudo_proxy_class target :
  __class__ (clear_sudo_proxy target) = __class__ target.
Proof. done. Qed.
End Serve.

(** C2.  What [run] does when it reads a request name, other than
    ["close"], that has no allowlist entry: the [raise] statement fails on
    the unbound name [attr], so a [NameError] that does not mention the
    method leaves the loop in place of the [AttributeError]; nothing is
    written after ["READY"], no argument is read, and [finally] closes
    the pipe. *)
Theorem run_unlisted_request `{!Pickle} (target : pyobject) (ep : Endpoint)
    (methname : string) (rest : list string) (fuel : nat) :
  closed ep = false →
  inbox ep = methname :: rest →
  methname ≠ "close" →
  _get_sudo_argtypes target methname = None →
  run (S fuel) target ep =
    Some (Raise (Exc NameError "global name 'attr' is not defined")
            (mkEndpoint rest (peer_gone ep) (outbox ep ++ ["READY"]) true)).
Proof.
  intros Hopen Hin Hne Hnone. rewrite <-name_error_attr. unfold run.
  rewrite (endpoint_write_open ep "READY" Hopen).
  unfold serve. cbn [while_true].
  erewrite serve_once_unlisted; [done|done|done|done|].
  by rewrite (get_sudo_argtypes_class _ target).
Qed.

(** C5 (amended).  For every name that no class of the target's
    ancestor chain declares, [__getattr__] raises [AttributeError] at once
    and leaves the process as it was, pipes included: nothing is written
    to the channel.  Attribute access on the proxy ends in that error for
    every such name that is not one of the proxy's own attributes and
    under which nothing is stored. *)
Theorem unlisted_names_rejected_locally {P} (attr : string) (w : process P) :
  well_formed (__class__ (self_target (self w))) →
  (∀ c, ancestor (__class__ (self_target (self w))) c → declared c attr = None) →
  ∃ msg,
    __getattr__ attr w = Raise (Exc AttributeError msg) w ∧
    (own_attribute attr = false →
     self_dict (self w) !! attr = None →
     getattribute attr w = Raise (Exc AttributeError msg) w).
Proof.
  intros Hwf Hnone. apply get_sudo_argtypes_None in Hnone; [|done].
  assert (∃ msg, __getattr__ attr w = Raise (Exc AttributeError msg) w)
    as [msg Hmsg].
  { destruct (startswith_underscore attr) eqn:Hpriv.
    - exists attr. by apply getattr_private.
    - eexists. by apply getattr_unlisted. }
  exists msg. split; [done|]. intros Hown Hstored.
  rewrite getattribute_missing by done. by erewrite bind_Raise.
Qed.

(** C1 (amended).  For every name that does not begin with an underscore
    and is not ["close"], the check in [__getattr__] and the check in
    [run], made on targets of the same class, agree.  With an allowlist
    entry the proxy builds the forwarding function and the helper goes on
    to read the declared arguments and call the method; without one the
    proxy raises [AttributeError] and the helper's turn ends in the
    [raise] statement. *)
Theorem preflight_matches_dispatch {P Q} `{!Pipe Q} `{!Pickle}
    (attr : string) (w : process P) (served : pyobject) :
  startswith_underscore attr = false →
  attr ≠ "close" →
  __class__ served = __class__ (self_target (self w)) →
  match _get_sudo_argtypes (self_target (self w)) attr with
  | Some argtypes =>
      (∃ f, __getattr__ attr w = Ok f (remember attr f w)) ∧
      (∃ method,
         getattr served attr = Some method ∧
         ∀ pipe : Q,
           handle served attr pipe =
             (args ← read_args argtypes; respond served method args) pipe)
  | None =>
      __getattr__ attr w = Raise (not_allowed attr) w ∧
      (∀ pipe : Q,
         handle served attr pipe =
           Raise (name_error "attr") pipe)
  end.
Proof.
  intros Hpub Hne Hclass.
  destruct (_get_sudo_argtypes (self_target (self w)) attr) as [argtypes|] eqn:Hlist.
  - split.
    + destruct (getattr_listed attr w argtypes Hpub Hlist) as (method & _ & Hget).
      eauto.
    + destruct (declared_getattr _ _ _ Hlist) as [method Hm].
      exists method. rewrite (getattr_class served _ attr Hclass).
      split; [done|]. intros pipe. unfold handle. rewrite decide_False by done.
      unfold dispatch.
      rewrite (get_sudo_argtypes_class served _ attr Hclass), Hlist.
      by rewrite (getattr_class served _ attr Hclass), Hm.
  - split; [by apply getattr_unlisted|].
    intros pipe. unfold handle. rewrite decide_False by done.
    unfold dispatch.
    by rewrite (get_sudo_argtypes_class served _ attr Hclass), Hlist.
Qed.

(** ** One request served *)

Section Request.
Context `{!Pickle}.
Implicit Types ep : Endpoint.




End Request.

(** ** The link *)

Section LinkFacts.
Context `{!Pickle}.
Implicit Types l : Linked.
Implicit Types w : process Linked.




End LinkFacts.

Section Calls.
Context `{!Pickle}.
Implicit Types l : Linked.
Implicit Types w : process Linked.

(** [start()] against the helper connects the proxy. *)
Lemma start_connects w :
  let l := mkLinked (clear_sudo_proxy (self_target (self w)))
             (mkEndpoint [] false ["READY"] false) true 1 [] false in
  start (spawn_sudo (self w)) w = Ok tt (bound_to l w) ∧
  connected (bound_to l w) (length (heap w)) l.
Proof.
  intros l. split.
  - unfold start. erewrite bind_Ok; [|reflexivity].
    destruct (bound_to_pipe (spawn_sudo (self w)) w) as [Hr Hl].
    erewrite bind_Ok; [|by eapply on_self_pipe_Ok].
    by rewrite bound_to_with_pipe.
  - split; try done. apply bound_to_pipe.
Qed.


End Calls.

Section Roundtrip.
Context `{!Pickle}.
Implicit Types l : Linked.
Implicit Types w : process Linked.




End Roundtrip.



(** ** The serve loop ends on every finite input *)

Section Termination.
Context `{!Pickle}.
Implicit Types ep : Endpoint.

Lemma endpoint_read_inbox ep msg ep' :
  pipe_read ep = Ok msg ep' → inbox ep = msg :: inbox ep'.
Proof.
  cbn. unfold endpoint_read. destruct (closed ep); [done|].
  destruct (inbox ep) as [|m rest]; [by destruct (peer_gone ep)|].
  by intros [= <- <-].
Qed.

Lemma endpoint_write_inbox ep msg ep' :
  pipe_write msg ep = Ok tt ep' → inbox ep' = inbox ep.
Proof.
  cbn. unfold endpoint_write. destruct (closed ep); [done|]. by intros [= <-].
Qed.

Lemma read_args_inbox argtypes ep args ep' :
  read_args argtypes ep = Ok args ep' → length (inbox ep') ≤ length (inbox ep).
Proof.
  revert ep args ep'. induction argtypes as [|t ts IH]; intros ep args ep'.
  - by intros [= _ <-].
  - cbn [read_args]. unfold mbind, M_bind.
    destruct (pipe_read ep) as [raw ep1|?|?] eqn:Hread; try done.
    apply endpoint_read_inbox in Hread. rewrite Hread.
    destruct (t raw) as [v|e]; cbn [of_call]; [|done].
    unfold mret, M_ret.
    destruct (read_args ts ep1) as [vs ep2|?|?] eqn:Hrest; try done.
    apply IH in Hrest. intros [= _ <-]. cbn. lia.
Qed.

Lemma respond_inbox target method args ep c ep' :
  respond target method args ep = Ok c ep' → inbox ep' = inbox ep.
Proof.
  unfold respond.
  assert (Hsend : ∀ r : pyexc + string,
    (response ← of_sum r; pipe_write response;; mret Continue) ep = Ok c ep' →
    inbox ep' = inbox ep).
  { intros [e|response]; [done|]. cbn [of_sum].
    unfold mbind, M_bind, mret, M_ret.
    destruct (pipe_write response ep) as [[] ep1|?|?] eqn:Hw; try done.
    apply endpoint_write_inbox in Hw. by intros [= _ <-]. }
  destruct (func_call method (attrs target) args) as [res|e]; [apply Hsend|].
  destruct (isinstance_Exception e); [apply Hsend|done].
Qed.

Lemma handle_inbox target methname ep c ep' :
  handle target methname ep = Ok c ep' → length (inbox ep') ≤ length (inbox ep).
Proof.
  unfold handle. case_decide.
  - unfold mbind, M_bind, mret, M_ret.
    destruct (pipe_write "CLOSING" ep) as [[] ep1|?|?] eqn:Hw; try done.
    apply endpoint_write_inbox in Hw. intros [= _ <-]. by rewrite Hw.
  - unfold dispatch.
    destruct (_get_sudo_argtypes target methname) as [argtypes|]; [|done].
    destruct (getattr target methname) as [method|]; [|done].
    unfold mbind, M_bind.
    destruct (read_args argtypes ep) as [args ep1|?|?] eqn:Hargs; try done.
    apply read_args_inbox in Hargs.
    intros Hresp%respond_inbox. by rewrite Hresp.
Qed.

(** A turn that goes on to the next has consumed a message. *)
Lemma serve_once_consumes target ep ep' :
  serve_once target ep = Ok Continue ep' →
  length (inbox ep') < length (inbox ep).
Proof.
  unfold serve_once, try_except, mbind, M_bind.
  destruct (pipe_read ep) as [methname ep1|e ep1|ep1] eqn:Hread.
  - apply endpoint_read_inbox in Hread. rewrite Hread.
    destruct (handle target methname ep1) as [c ep2|e ep2|ep2] eqn:Hh.
    + apply handle_inbox in Hh. intros [= _ <-]. cbn. lia.
    + by destruct (isinstance_EOFError e).
    + done.
  - by destruct (isinstance_EOFError e).
  - done.
Qed.

Lemma while_true_enough_fuel target fuel ep :
  length (inbox ep) < fuel →
  is_Some (while_true fuel (serve_once target) ep).
Proof.
  revert ep. induction fuel as [|fuel IH]; intros ep Hlen; [lia|].
  cbn [while_true].
  destruct (serve_once target ep) as [[] ep1|e ep1|ep1] eqn:Hone; try by eauto.
  apply serve_once_consumes in Hone. apply IH. lia.
Qed.

Lemma serve_enough_fuel target fuel ep :
  length (inbox ep) < fuel → is_Some (serve fuel target ep).
Proof.
  intros Hlen. unfold serve.
  destruct (while_true_enough_fuel target fuel ep Hlen) as [o ->]. by eauto.
Qed.

(** [SudoProxy.run] ends, one way or another, on every finite input. *)
Lemma run_enough_fuel target fuel ep :
  length (inbox ep) < fuel → is_Some (run fuel target ep).
Proof.
  intros Hlen. unfold run.
  destruct (pipe_write "READY" ep) as [[] ep1|e ep1|ep1] eqn:Hw; try by eauto.
  apply serve_enough_fuel. apply endpoint_write_inbox in Hw. by rewrite Hw.
Qed.

(** The helper, run on the link, never runs out of fuel. *)
Lemma helper_runs_served (l : Linked) :
  is_Some (serve (S (length (inbox (helper_end l)))) (helper_target l)
             (helper_end l)).
Proof. apply serve_enough_fuel. lia. Qed.

(** More fuel does not change an outcome already reached. *)
Lemma while_true_more_fuel {S} (body : M S loop_ctl) fuel fuel' s o :
  while_true fuel body s = Some o → fuel ≤ fuel' →
  while_true fuel' body s = Some o.
Proof.
  revert fuel' s. induction fuel as [|fuel IH]; intros fuel' s; [done|].
  intros Hrun Hle. destruct fuel' as [|fuel']; [lia|].
  cbn [while_true] in *.
  destruct (body s) as [[] s1|e s1|s1]; try done. apply IH; [done|lia].
Qed.
End Termination.

(** ** The serve loop on a stream of requests *)

Section Stream.
Context `{!Pickle}.
Implicit Types ep : Endpoint.

Lemma read_args_raw argtypes raws cargs ep rest :
  coerce argtypes raws = Some cargs →
  closed ep = false →
  inbox ep = raws ++ rest →
  read_args argtypes ep = Ok cargs (mkEndpoint rest (peer_gone ep) (outbox ep) false).
Proof.
  revert raws cargs ep. induction argtypes as [|t ts IH]; intros raws cargs ep.
  - destruct raws; [|done]. intros [= <-] Hopen Hin. cbn in *.
    destruct ep; cbn in *. by subst.
  - destruct raws as [|raw raws]; [done|]. cbn [coerce].
    destruct (t raw) as [c|] eqn:Ht; [|done].
    destruct (coerce ts raws) as [cs|] eqn:Hcs; cbn [mbind option_bind]; [|done].
    intros [= <-] Hopen Hin. cbn [read_args].
    erewrite bind_Ok; [|by apply (endpoint_read_message _ raw (raws ++ rest))].
    rewrite Ht. cbn [of_call]. erewrite bind_Ok; [|reflexivity].
    erewrite bind_Ok; [|by eapply IH]. done.
Qed.

(** A request that has an answer is consumed whole and answered with it. *)
Lemma serve_once_answer target q r ep rest :
  answer target q = Some r →
  closed ep = false →
  inbox ep = wire q ++ rest →
  serve_once target ep =
    Ok Continue (mkEndpoint rest (peer_gone ep) (outbox ep ++ [r]) false).
Proof.
  unfold answer. case_decide as Hne; [done|].
  destruct (_get_sudo_argtypes target (req_name q)) as [argtypes|] eqn:Hlist;
    cbn [mbind option_bind]; [|done].
  destruct (getattr target (req_name q)) as [method|] eqn:Hget;
    cbn [mbind option_bind]; [|done].
  destruct (coerce argtypes (req_args q)) as [cargs|] eqn:Hco;
    cbn [mbind option_bind]; [|done].
  intros Hans Hopen Hin.
  unfold serve_once, try_except.
  erewrite bind_Ok; [|by apply (endpoint_read_message _ (req_name q) (req_args q ++ rest))].
  unfold handle. rewrite decide_False by done.
  unfold dispatch. rewrite Hlist, Hget.
  erewrite bind_Ok; [|by eapply read_args_raw].
  unfold respond.
  destruct (func_call method (attrs target) cargs) as [res|e].
  - destruct (pickle_dumps (true, res)) as [|s] eqn:Hd; [done|].
    injection Hans as ->. cbn [of_sum]. erewrite bind_Ok; [|reflexivity].
    erewrite bind_Ok; [|by apply endpoint_write_open]. done.
  - destruct (isinstance_Exception e); [|done].
    destruct (pickle_dumps (false, PyExc e)) as [|s] eqn:Hd; [done|].
    injection Hans as ->. cbn [of_sum]. erewrite bind_Ok; [|reflexivity].
    erewrite bind_Ok; [|by apply endpoint_write_open]. done.
Qed.

(** Requests that have answers are served one after the other; the loop
    then goes on with what follows them. *)
Lemma while_true_requests target qs rs ep tail fuel :
  Forall2 (λ q r, answer target q = Some r) qs rs →
  closed ep = false →
  inbox ep = (qs ≫= wire) ++ tail →
  while_true (length qs + fuel) (serve_once target) ep =
  while_true fuel (serve_once target)
    (mkEndpoint tail (peer_gone ep) (outbox ep ++ rs) false).
Proof.
  intros Hall. revert ep. induction Hall as [|q r qs rs Hq _ IH]; intros ep Hopen Hin.
  - cbn in *. rewrite app_nil_r. destruct ep; cbn in *. by subst.
  - cbn [length Nat.add while_true].
    erewrite serve_once_answer; [|done|done|].
    2:{ rewrite Hin. change ((q :: qs) ≫= wire) with (wire q ++ (qs ≫= wire)).
        by rewrite <-(assoc_L (++)). }
    rewrite IH by done. cbn. by rewrite <-(assoc_L (++)).
Qed.

(** [run] up to the point where the requests that have answers are
    served. *)
Lemma run_requests target qs rs ep tail fuel :
  Forall2 (λ q r, answer (clear_sudo_proxy target) q = Some r) qs rs →
  closed ep = false →
  inbox ep = (qs ≫= wire) ++ tail →
  run (length qs + fuel) target ep =
  serve fuel (clear_sudo_proxy target)
    (mkEndpoint tail (peer_gone ep) (outbox ep ++ "READY" :: rs) false).
Proof.
  intros Hall Hopen Hin. unfold run.
  rewrite (endpoint_write_open ep "READY" Hopen). unfold serve.
  erewrite while_true_requests; [|done|done|done].
  cbn. by rewrite <-(assoc_L (++)).
Qed.
End Stream.

Section Endings.
Context `{!Pickle}.
Implicit Types ep : Endpoint.

(** The end of the loop, by the outcome of its last turn. *)
Lemma serve_last_turn target ep fuel :
  serve (S fuel) target ep =
  match serve_once target ep with
  | Ok Continue ep1 => serve fuel target ep1
  | Ok Break ep1 =>
      Some (Ok tt (mkEndpoint (inbox ep1) (peer_gone ep1) (outbox ep1) true))
  | Raise e ep1 =>
      Some (Raise e (mkEndpoint (inbox ep1) (peer_gone ep1) (outbox ep1) true))
  | Block _ => Some (Block ep)
  end.
Proof.
  unfold serve. cbn [while_true].
  by destruct (serve_once target ep) as [[] ep1|e ep1|ep1].
Qed.

Lemma fuel_split (n fuel : nat) : n < fuel → fuel = n + S (fuel - S n).
Proof. lia. Qed.

Lemma not_Exception_not_EOFError e :
  isinstance_Exception e = false → isinstance_EOFError e = false.
Proof. unfold isinstance_Exception, isinstance_EOFError. by destruct (exc_type e). Qed.

(** A request cut short by the end of the stream. *)
Lemma read_args_eof argtypes raws cargs ep :
  length raws < length argtypes →
  coerce (take (length raws) argtypes) raws = Some cargs →
  closed ep = false → inbox ep = raws → peer_gone ep = true →
  read_args argtypes ep =
    Raise (Exc EOFError "") (mkEndpoint [] true (outbox ep) false).
Proof.
  revert raws cargs ep. induction argtypes as [|t ts IH]; intros raws cargs ep Hlen.
  { cbn in Hlen. lia. }
  destruct raws as [|raw raws]; intros Hco Hopen Hin Hpeer.
  - cbn [read_args]. erewrite bind_Raise; [done|].
    rewrite endpoint_read_eof by done. destruct ep; cbn in *. by subst.
  - cbn [length take coerce] in Hco.
    destruct (t raw) as [c|] eqn:Ht; [|done].
    destruct (coerce (take (length raws) ts) raws) as [cs|] eqn:Hcs; [|done].
    cbn [read_args].
    erewrite bind_Ok; [|by apply (endpoint_read_message _ raw raws)].
    rewrite Ht. cbn [of_call]. erewrite bind_Ok; [|reflexivity].
    erewrite bind_Raise; [done|].
    erewrite (IH raws cs); [done|cbn in Hlen; lia|done|done|done|done].
Qed.

(** A coercion that raises. *)
Lemma read_args_raises argtypes raws cargs t raw e ep rest :
  argtypes !! length raws = Some t →
  coerce (take (length raws) argtypes) raws = Some cargs →
  t raw = Raises e →
  closed ep = false → inbox ep = raws ++ raw :: rest →
  read_args argtypes ep =
    Raise e (mkEndpoint rest (peer_gone ep) (outbox ep) false).
Proof.
  revert raws cargs ep. induction argtypes as [|t0 ts IH]; intros raws cargs ep; [done|].
  destruct raws as [|raw0 raws]; intros Ht Hco Hraise Hopen Hin.
  - cbn in Ht. injection Ht as ->. cbn [read_args].
    erewrite bind_Ok; [|by apply (endpoint_read_message _ raw rest)].
    by rewrite Hraise.
  - cbn [length take coerce] in Hco. cbn in Ht.
    destruct (t0 raw0) as [c|] eqn:Ht0; [|done].
    destruct (coerce (take (length raws) ts) raws) as [cs|] eqn:Hcs; [|done].
    cbn [read_args].
    erewrite bind_Ok; [|by apply (endpoint_read_message _ raw0 (raws ++ raw :: rest))].
    rewrite Ht0. cbn [of_call]. erewrite bind_Ok; [|reflexivity].
    erewrite bind_Raise; [done|].
    erewrite (IH raws cs); [done|done|done|done|done|done].
Qed.
End Endings.

(** X1.  [run] on a stream of requests that ends with ["close"].  A
    request has an answer when it names an allowed method other than
    ["close"], its arguments are all there and pass their coercions, and
    the outcome of the call (a result, or an exception derived from
    [Exception]) can be pickled.  If every request before ["close"] has an
    answer, the helper writes ["READY"], the answers in the order of the
    requests, then ["CLOSING"]; it closes its pipe and returns.  What
    follows ["close"] is left unread. *)
Theorem run_serves_until_close `{!Pickle} (target : pyobject) (ep : Endpoint)
    (qs : list request) (rs rest : list string) (fuel : nat) :
  Forall2 (λ q r, answer (clear_sudo_proxy target) q = Some r) qs rs →
  closed ep = false →
  inbox ep = (qs ≫= wire) ++ "close" :: rest →
  length qs < fuel →
  run fuel target ep =
    Some (Ok tt (mkEndpoint rest (peer_gone ep)
                   (outbox ep ++ "READY" :: rs ++ ["CLOSING"]) true)).
Proof.
  intros Hall Hopen Hin Hfuel. rewrite (fuel_split _ _ Hfuel).
  erewrite run_requests; [|done|done|done].
  rewrite serve_last_turn. unfold serve_once, try_except.
  erewrite bind_Ok; [|by apply (endpoint_read_message _ "close" rest)].
  unfold handle. rewrite decide_True by done.
  erewrite bind_Ok; [|by apply endpoint_write_open].
  cbn. by rewrite <-(assoc_L (++)).
Qed.

(** X2.  [run] when the stream stops after the last whole request.  The
    helper writes ["READY"] and the answers, nothing else.  If the peer is
    gone, the [EOFError] of the next read ends the loop, the pipe is closed
    and [run] returns normally; if the peer is still there, the helper
    waits in that read with its pipe open. *)
Theorem run_after_last_request `{!Pickle} (target : pyobject) (ep : Endpoint)
    (qs : list request) (rs : list string) (fuel : nat) :
  Forall2 (λ q r, answer (clear_sudo_proxy target) q = Some r) qs rs →
  closed ep = false →
  inbox ep = qs ≫= wire →
  length qs < fuel →
  run fuel target ep =
    Some (if peer_gone ep
          then Ok tt (mkEndpoint [] true (outbox ep ++ "READY" :: rs) true)
          else Block (mkEndpoint [] false (outbox ep ++ "READY" :: rs) false)).
Proof.
  intros Hall Hopen Hin Hfuel. rewrite (fuel_split _ _ Hfuel).
  erewrite (run_requests _ _ _ _ []); [|done|done|by rewrite app_nil_r].
  rewrite serve_last_turn. unfold serve_once, try_except.
  destruct (peer_gone ep) eqn:Hpeer.
  - erewrite bind_Raise; [|by apply endpoint_read_eof]. done.
  - erewrite bind_Block; [|by apply endpoint_read_wait]. done.
Qed.

(** X3.  A request cut short by the end of the stream: the peer wrote an
    allowed method name and fewer arguments than declared, then went away.
    The [EOFError] raised while the arguments are read ends the loop like
    the one of a missing request: the method is not called, nothing is
    written for it, the pipe is closed and [run] returns normally. *)
Theorem run_truncated_request `{!Pickle} (target : pyobject) (ep : Endpoint)
    (qs : list request) (rs : list string) (methname : string)
    (argtypes : list argtype) (raws : list string) (cargs : list pyobj)
    (fuel : nat) :
  Forall2 (λ q r, answer (clear_sudo_proxy target) q = Some r) qs rs →
  closed ep = false →
  peer_gone ep = true →
  inbox ep = (qs ≫= wire) ++ methname :: raws →
  methname ≠ "close" →
  _get_sudo_argtypes target methname = Some argtypes →
  length raws < length argtypes →
  coerce (take (length raws) argtypes) raws = Some cargs →
  length qs < fuel →
  run fuel target ep =
    Some (Ok tt (mkEndpoint [] true (outbox ep ++ "READY" :: rs) true)).
Proof.
  intros Hall Hopen Hpeer Hin Hne Hlist Hshort Hco Hfuel.
  rewrite (fuel_split _ _ Hfuel).
  erewrite run_requests; [|done|done|done].
  rewrite serve_last_turn. unfold serve_once, try_except.
  erewrite bind_Ok; [|by apply (endpoint_read_message _ methname raws)].
  unfold handle. rewrite decide_False by done. unfold dispatch.
  rewrite (get_sudo_argtypes_class _ target) by done. rewrite Hlist.
  destruct (declared_getattr _ _ _ Hlist) as [method Hm].
  rewrite (getattr_class _ target) by done. rewrite Hm.
  erewrite bind_Raise; [|by eapply read_args_eof].
  done.
Qed.

(** X4.  A coercion that raises is not reported to the caller.  The
    arguments are converted outside the [try] that turns exceptions into
    responses, so when a declared argument type raises on the string it is
    given (anything but [EOFError]), the exception leaves the loop: no
    response is written, the messages after the offending argument stay
    unread, the pipe is closed and [run] raises the exception. *)
Theorem run_coercion_raises `{!Pickle} (target : pyobject) (ep : Endpoint)
    (qs : list request) (rs : list string) (methname : string)
    (argtypes : list argtype) (raws : list string) (cargs : list pyobj)
    (t : argtype) (raw : string) (e : pyexc) (rest : list string) (fuel : nat) :
  Forall2 (λ q r, answer (clear_sudo_proxy target) q = Some r) qs rs →
  closed ep = false →
  inbox ep = (qs ≫= wire) ++ methname :: raws ++ raw :: rest →
  methname ≠ "close" →
  _get_sudo_argtypes target methname = Some argtypes →
  argtypes !! length raws = Some t →
  coerce (take (length raws) argtypes) raws = Some cargs →
  t raw = Raises e →
  isinstance_EOFError e = false →
  length qs < fuel →
  run fuel target ep =
    Some (Raise e (mkEndpoint rest (peer_gone ep) (outbox ep ++ "READY" :: rs) true)).
Proof.
  intros Hall Hopen Hin Hne Hlist Ht Hco Hraise Heof Hfuel.
  rewrite (fuel_split _ _ Hfuel).
  erewrite run_requests; [|done|done|done].
  rewrite serve_last_turn. unfold serve_once, try_except.
  erewrite bind_Ok;
    [|by apply (endpoint_read_message _ methname (raws ++ raw :: rest))].
  unfold handle. rewrite decide_False by done. unfold dispatch.
  rewrite (get_sudo_argtypes_class _ target) by done. rewrite Hlist.
  destruct (declared_getattr _ _ _ Hlist) as [method Hm].
  rewrite (getattr_class _ target) by done. rewrite Hm.
  erewrite bind_Raise; [|by eapply read_args_raises].
  by rewrite Heof.
Qed.

(** X5.  An outcome that cannot be pickled ends the helper.  When the
    method returns, or raises an instance of [Exception], and
    [pickle.dumps] raises on the pair to send (anything but [EOFError]),
    nothing is written for the request, the pipe is closed and [run]
    raises the pickling error. *)
Theorem run_unpicklable_outcome `{!Pickle} (target : pyobject) (ep : Endpoint)
    (qs : list request) (rs : list string) (methname : string)
    (argtypes : list argtype) (method : pyfunc) (raws : list string)
    (cargs : list pyobj) (pair : bool * pyobj) (e : pyexc)
    (rest : list string) (fuel : nat) :
  Forall2 (λ q r, answer (clear_sudo_proxy target) q = Some r) qs rs →
  closed ep = false →
  inbox ep = (qs ≫= wire) ++ methname :: raws ++ rest →
  methname ≠ "close" →
  _get_sudo_argtypes target methname = Some argtypes →
  getattr target methname = Some method →
  coerce argtypes raws = Some cargs →
  outcome_pair (func_call method (attrs (clear_sudo_proxy target)) cargs) = Some pair →
  pickle_dumps pair = inl e →
  isinstance_EOFError e = false →
  length qs < fuel →
  run fuel target ep =
    Some (Raise e (mkEndpoint rest (peer_gone ep) (outbox ep ++ "READY" :: rs) true)).
Proof.
  intros Hall Hopen Hin Hne Hlist Hget Hco Hpair Hdump Heof Hfuel.
  rewrite (fuel_split _ _ Hfuel).
  erewrite run_requests; [|done|done|done].
  rewrite serve_last_turn. unfold serve_once, try_except.
  erewrite bind_Ok; [|by apply (endpoint_read_message _ methname (raws ++ rest))].
  unfold handle. rewrite decide_False by done. unfold dispatch.
  rewrite (get_sudo_argtypes_class _ target) by done. rewrite Hlist.
  rewrite (getattr_class _ target) by done. rewrite Hget.
  erewrite bind_Ok; [|by eapply read_args_raw].
  unfold respond.
  destruct (func_call method (attrs (clear_sudo_proxy target)) cargs) as [res|e'];
    cbn [outcome_pair] in Hpair.
  - injection Hpair as <-. rewrite Hdump. cbn [of_sum].
    erewrite bind_Raise; [|reflexivity]. by rewrite Heof.
  - destruct (isinstance_Exception e'); [|done].
    injection Hpair as <-. rewrite Hdump. cbn [of_sum].
    erewrite bind_Raise; [|reflexivity]. by rewrite Heof.
Qed.

(** X6.  An exception that does not derive from [Exception] ([SystemExit],
    [KeyboardInterrupt]) and is raised by the method is not caught by
    [except Exception]: no response is written, the pipe is closed and
    [run] raises it. *)
Theorem run_uncaught_exception `{!Pickle} (target : pyobject) (ep : Endpoint)
    (qs : list request) (rs : list string) (methname : string)
    (argtypes : list argtype) (method : pyfunc) (raws : list string)
    (cargs : list pyobj) (e : pyexc) (rest : list string) (fuel : nat) :
  Forall2 (λ q r, answer (clear_sudo_proxy target) q = Some r) qs rs →
  closed ep = false →
  inbox ep = (qs ≫= wire) ++ methname :: raws ++ rest →
  methname ≠ "close" →
  _get_sudo_argtypes target methname = Some argtypes →
  getattr target methname = Some method →
  coerce argtypes raws = Some cargs →
  func_call method (attrs (clear_sudo_proxy target)) cargs = Raises e →
  isinstance_Exception e = false →
  length qs < fuel →
  run fuel target ep =
    Some (Raise e (mkEndpoint rest (peer_gone ep) (outbox ep ++ "READY" :: rs) true)).
Proof.
  intros Hall Hopen Hin Hne Hlist Hget Hco Hcall Hexc Hfuel.
  rewrite (fuel_split _ _ Hfuel).
  erewrite run_requests; [|done|done|done].
  rewrite serve_last_turn. unfold serve_once, try_except.
  erewrite bind_Ok; [|by apply (endpoint_read_message _ methname (raws ++ rest))].
  unfold handle. rewrite decide_False by done. unfold dispatch.
  rewrite (get_sudo_argtypes_class _ target) by done. rewrite Hlist.
  rewrite (getattr_class _ target) by done. rewrite Hget.
  erewrite bind_Ok; [|by eapply read_args_raw].
  unfold respond. rewrite Hcall, Hexc. unfold raise.
  by rewrite (not_Exception_not_EOFError e Hexc).
Qed.

(** ** Attribute access, wrappers and the pipe they hold *)

Section Wrappers.
Context {P : Type} `{!Pipe P} `{!Pickle}.
Implicit Types w : process P.

Lemma on_pipe_self {A} ref attr (op : M P A) w :
  self (state_of (on_pipe ref attr op w)) = self w.
Proof.
  unfold on_pipe. destruct ref as [i|]; [|done].
  destruct (heap w !! i) as [p|]; [|done]. by destruct (op p).
Qed.

Lemma close_self w : self (state_of (close w)) = self w.
Proof.
  unfold close, on_self_pipe, mbind, M_bind.
  pose proof (on_pipe_self (self_pipe (self w)) "write" (pipe_write "close") w) as H1.
  destruct (on_pipe (self_pipe (self w)) "write" (pipe_write "close") w)
    as [[] w1|e w1|w1]; cbn in H1; [|done|done].
  pose proof (on_pipe_self (self_pipe (self w1)) "read" pipe_read w1) as H2.
  destruct (on_pipe (self_pipe (self w1)) "read" pipe_read w1)
    as [msg w2|e w2|w2]; cbn in H2; [|by rewrite <-H1|by rewrite <-H1].
  pose proof (on_pipe_self (self_pipe (self w2)) "close" pipe_close w2) as H3.
  rewrite <-H1, <-H2. exact H3.
Qed.

(** [start()] rebinds [self.pipe] and nothing else of the proxy. *)
Lemma start_self spawned w :
  self (state_of (start spawned w)) = self (bound_to spawned w).
Proof.
  unfold start. erewrite bind_Ok; [|reflexivity].
  unfold on_self_pipe, mbind, M_bind.
  pose proof (on_pipe_self (self_pipe (self (bound_to spawned w))) "read"
                pipe_read (bound_to spawned w)) as H1.
  destruct (on_pipe (self_pipe (self (bound_to spawned w))) "read" pipe_read
              (bound_to spawned w)) as [msg w1|e w1|w1]; [|exact H1|exact H1].
  change (self w1 = self (bound_to spawned w)) in H1.
  case_decide; [|exact H1].
  pose proof (close_self w1) as H2.
  destruct (close w1) as [[] w2|e w2|w2];
    change (self w2 = self w1) in H2; by rewrite <-H1, <-H2.
Qed.

(** What [__getattr__] gives for a name it accepts. *)
Lemma getattr_wrapper attr w f w1 :
  __getattr__ attr w = Ok f w1 →
  w1 = remember attr f w ∧ w_pipe f = self_pipe (self w).
Proof.
  unfold __getattr__. destruct (startswith_underscore attr); [done|].
  destruct (_get_sudo_argtypes (self_target (self w)) attr); [|done].
  destruct (getattr (self_target (self w)) attr) as [method|]; [|done].
  cbn. by intros [= <- <-].
Qed.
End Wrappers.

(** X7.  [__getattr__] does no input or output and leaves [self.pipe] as
    it is: whatever its outcome, the pipe objects and [self.pipe] are
    unchanged.  When it returns a wrapper, the wrapper is stored on the
    proxy under the name asked for and holds the pipe object that
    [self.pipe] names at that moment; when it raises, the proxy is
    unchanged; it never waits. *)
Theorem getattr_keeps_pipes {P} (attr : string) (w : process P) :
  heap (state_of (__getattr__ attr w)) = heap w ∧
  self_pipe (self (state_of (__getattr__ attr w))) = self_pipe (self w) ∧
  match __getattr__ attr w with
  | Ok f w1 => self_dict (self w1) !! attr = Some f ∧ w_pipe f = self_pipe (self w)
  | Raise _ w1 => w1 = w
  | Block _ => False
  end.
Proof.
  unfold __getattr__. destruct (startswith_underscore attr); [done|].
  destruct (_get_sudo_argtypes (self_target (self w)) attr); [|done].
  destruct (getattr (self_target (self w)) attr) as [method|]; [|done].
  cbn. split; [done|]. split; [done|].
  split; [apply lookup_insert_eq|done].
Qed.

(** X8.  A wrapper obtained before [start()] is unusable for good.  If
    [self.pipe] is [None] when [__getattr__] builds the wrapper, the
    wrapper holds [None]: every call of it raises the [AttributeError] of
    [None.write] and changes nothing.  A later [start()], whatever pipe it
    is given and however it ends, leaves this wrapper stored on the proxy
    under its name. *)
Theorem wrapper_built_before_start {P} `{!Pipe P} `{!Pickle}
    (attr : string) (w w1 : process P) (f : wrapper) :
  self_pipe (self w) = None →
  __getattr__ attr w = Ok f w1 →
  (∀ args (w' : process P), call f args w' = Raise (none_has_no "write") w') ∧
  (∀ spawned, self_dict (self (state_of (start spawned w1))) !! attr = Some f).
Proof.
  intros Hnone Hget.
  destruct (getattr_wrapper attr w f w1 Hget) as [-> Hpipe].
  rewrite Hnone in Hpipe. split.
  - intros args w'. unfold call. rewrite Hpipe. by erewrite bind_Raise.
  - intros spawned. rewrite start_self. cbn. apply lookup_insert_eq.
Qed.

(** X9.  A wrapper keeps the pipe object it was built with.  Let
    [self.pipe] be [None] or name an existing pipe object when
    [__getattr__] builds a wrapper.  After a later [start()], however it
    ends, the wrapper is still stored on the proxy under its name,
    [self.pipe] names the new pipe object, and the wrapper does not hold
    that one. *)
Theorem wrapper_outlives_restart {P} `{!Pipe P} `{!Pickle}
    (attr : string) (w w1 : process P) (f : wrapper) (spawned : P) :
  (∀ r, self_pipe (self w) = Some r → r < length (heap w)) →
  __getattr__ attr w = Ok f w1 →
  let w2 := state_of (start spawned w1) in
  self_dict (self w2) !! attr = Some f ∧
  self_pipe (self w2) = Some (length (heap w)) ∧
  w_pipe f ≠ self_pipe (self w2).
Proof.
  intros Hvalid Hget w2.
  destruct (getattr_wrapper attr w f w1 Hget) as [-> Hpipe].
  unfold w2. rewrite start_self. cbn. split; [apply lookup_insert_eq|].
  split; [done|]. rewrite Hpipe. intros Heq. apply Hvalid in Heq. lia.
Qed.

(** X10.  A proxy that was never started.  After [__init__], [close()]
    raises the [AttributeError] of [None.write] and changes nothing.  For
    an allowed method whose name does not begin with an underscore and is
    none of the proxy's own attributes, attribute access builds the
    wrapper and stores it on the proxy, and the call of it raises the same
    [AttributeError]. *)
Theorem never_started_proxy {P} `{!Pipe P} `{!Pickle}
    (target : pyobject) (pipes : list P) (attr : string)
    (argtypes : list argtype) (args : list pyobj) :
  let w := mkProcess pipes (__init__ target) in
  close w = Raise (none_has_no "write") w ∧
  (startswith_underscore attr = false →
   own_attribute attr = false →
   _get_sudo_argtypes target attr = Some argtypes →
   ∃ method,
     let f := Wrapper (func_name method) None in
     getattr target attr = Some method ∧
     getattribute attr w = Ok (Forwarder f) (remember attr f w) ∧
     call f args (remember attr f w) =
       Raise (none_has_no "write") (remember attr f w)).
Proof.
  intros w. split; [done|]. intros Hpub Hown Hlist.
  destruct (declared_getattr _ _ _ Hlist) as [method Hm].
  exists method. intros f. split; [done|]. split.
  - by apply (getattribute_listed attr w argtypes method).
  - unfold call. cbn [w_pipe f]. by erewrite bind_Raise.
Qed.

(** ** start and close *)

(** X11.  [start()] on a channel whose first message is ["READY"]: it
    binds the pipe, consumes that one message, writes nothing and returns;
    the messages after ["READY"] stay in the channel. *)
Theorem start_ready (ep : Endpoint) (w : process Endpoint) (more : list string) :
  closed ep = false →
  inbox ep = "READY" :: more →
  start ep w = Ok tt (bound_to (mkEndpoint more (peer_gone ep) (outbox ep) false) w).
Proof.
  intros Hopen Hin. rewrite start_outcome by done. rewrite Hin.
  by rewrite decide_True.
Qed.

(** X12.  [start()] on a channel that ends before any message (the helper
    could not be launched, or died before its first write): the read
    raises [EOFError], which [start()] does not handle.  No
    [RuntimeError] is raised, [close()] is not called, and the pipe stays
    bound to the proxy and open. *)
Theorem start_end_of_stream (ep : Endpoint) (w : process Endpoint) :
  closed ep = false →
  inbox ep = [] →
  peer_gone ep = true →
  start ep w = Raise (Exc EOFError "") (bound_to ep w).
Proof.
  intros Hopen Hin Hpeer. rewrite start_outcome by done. by rewrite Hin, Hpeer.
Qed.

Section Handshake.
Context `{!Pickle}.
Implicit Types l : Linked.
Implicit Types w : process Linked.
Implicit Types ep : Endpoint.



End Handshake.



Section Surplus.
Context `{!Pickle}.
Implicit Types ep : Endpoint.


End Surplus.


(** ** The old-style walk, whatever the hierarchy *)

Lemma oldstyle_bases_ok bases cls :
  Forall visit_ok bases →
  (∀ b, b ∈ bases → b ∈ __bases__ cls) →
  ∀ seen,
    let l := (oldstyle_bases _get_oldstyle_mro bases seen).1 in
    NoDup (cls_id <$> l) ∧
    (∀ c, c ∈ l → ancestor cls c ∧ cls_id c ∉ seen) ∧
    (oldstyle_bases _get_oldstyle_mro bases seen).2 = ids l ∪ seen.
Proof.
  induction 1 as [|b bases Hb _ IH]; intros Hsub seen; cbn [oldstyle_bases].
  - cbn [fst snd]. split; [constructor|]. split; [by intros ? ?%elem_of_nil|].
    by rewrite ids_nil, (left_id_L ∅ (∪)).
  - case_decide as Hseen.
    { apply IH. intros b' ?. apply Hsub. by right. }
    destruct (Hb seen) as (Hhead & Hnd & Hanc & Hfresh & Hseen').
    destruct (_get_oldstyle_mro b seen) as [l1 seen1]. cbn [fst snd] in *.
    destruct (IH (λ b' H, Hsub b' (list_elem_of_further _ _ _ H)) seen1)
      as (Hnd2 & Hall2 & Hseen2).
    destruct (oldstyle_bases _get_oldstyle_mro bases seen1) as [l2 seen2].
    cbn [fst snd] in *. subst seen1 seen2.
    assert (Hl1 : ∀ c, c ∈ l1 → cls_id c ∉ seen).
    { destruct l1 as [|c1 l1]; [done|]. injection Hhead as ->.
      intros c [->|Hc]%elem_of_cons; [done|by apply Hfresh]. }
    split; [|split].
    + rewrite fmap_app. apply NoDup_app. split; [done|]. split; [|done].
      intros i (c1 & -> & Hc1)%list_elem_of_fmap (c2 & Hid & Hc2)%list_elem_of_fmap.
      destruct (Hall2 c2 Hc2) as [_ Hnot]. apply Hnot.
      apply elem_of_union_l, elem_of_ids. by exists c1.
    + intros c [Hc|Hc]%elem_of_app.
      * split; [|by apply Hl1].
        eapply ancestor_base; [apply Hsub; left|by apply Hanc].
      * destruct (Hall2 c Hc) as [? Hnot]. split; [done|].
        intros ?. apply Hnot. by apply elem_of_union_r.
    + rewrite ids_app. by rewrite (assoc_L (∪)), (comm_L (∪) (ids l2)).
Qed.

Lemma oldstyle_visit_ok cls : visit_ok cls.
Proof.
  induction cls as [i mro bases d IH] using pyclass_ind. intros seen.
  rewrite oldstyle_mro_unfold. cbn [__bases__ cls_id].
  set (cls := PyClass i mro bases d).
  destruct (oldstyle_bases_ok bases cls IH (λ b H, H) ({[i]} ∪ seen))
    as (Hnd & Hall & Hseen).
  destruct (oldstyle_bases _get_oldstyle_mro bases ({[i]} ∪ seen)) as [l seen'].
  cbn [fst snd] in *. split; [done|]. split; [|split; [|split]].
  - cbn [fmap list_fmap]. apply NoDup_cons. split; [|done].
    intros (c & Hid & Hc)%list_elem_of_fmap.
    destruct (Hall c Hc) as [_ Hnot]. apply Hnot.
    apply elem_of_union_l, elem_of_singleton. by rewrite <-Hid.
  - intros c [->|Hc]%elem_of_cons; [constructor|by apply Hall].
  - intros c Hc. destruct (Hall c Hc) as [_ Hnot]. intros ?. apply Hnot.
    by apply elem_of_union_r.
  - rewrite Hseen, ids_cons. cbn [cls_id cls].
    by rewrite (assoc_L (∪)), (comm_L (∪) (ids l)).
Qed.

(** X16.  What [_get_oldstyle_mro(cls, seen)] yields, for any class and
    any [seen]: the class itself first; ancestors of the class only; no
    class identity twice; after the first, none that was in [seen] at the
    start.  When the walk is over, [seen] holds what it held plus the
    identities yielded. *)
Theorem oldstyle_mro_yields (cls : pyclass) (seen : gset positive) :
  let l := (_get_oldstyle_mro cls seen).1 in
  head l = Some cls ∧
  NoDup (cls_id <$> l) ∧
  (∀ c, c ∈ l → ancestor cls c) ∧
  (∀ c, c ∈ tail l → cls_id c ∉ seen) ∧
  (_get_oldstyle_mro cls seen).2 = ids l ∪ seen.
Proof. apply oldstyle_visit_ok. Qed.

(** ** Declarations and definitions along the resolution order *)

Lemma first_defined_app l1 l2 m f :
  first_defined l1 m = Some f → first_defined (l1 ++ l2) m = Some f.
Proof.
  induction l1 as [|c l1 IH]; cbn; [done|].
  by destruct (__dict__ c !! m).
Qed.

Lemma first_defined_undeclared l m f :
  (∀ c, c ∈ l → declared c m = None) →
  first_defined l m = Some f → _esky_sudo_argtypes f = None.
Proof.
  induction l as [|c l IH]; cbn; [done|]. intros Hnone.
  pose proof (Hnone c (list_elem_of_here _ _)) as Hc. unfold declared in Hc.
  destruct (__dict__ c !! m) as [g|].
  - by intros [= <-].
  - apply IH. intros c' ?. apply Hnone. by right.
Qed.

(** X17.  A declaration made in a base class covers an undecorated
    override.  If, in the resolution order of the object, the first class
    that declares the method allowed comes after a class that defines the
    method, then [_get_sudo_argtypes] gives the argument types declared in
    the base, while [getattr] gives the function of the earlier class,
    which carries no declaration. *)
Theorem inherited_declaration_covers_override (obj : pyobject) (m : string)
    (f : pyfunc) (argtypes : list argtype) (before : list pyclass)
    (base : pyclass) (after : list pyclass) :
  _get_mro obj = before ++ base :: after →
  (∀ c, c ∈ before → declared c m = None) →
  declared base m = Some argtypes →
  first_defined before m = Some f →
  _get_sudo_argtypes obj m = Some argtypes ∧
  getattr obj m = Some f ∧
  _esky_sudo_argtypes f = None.
Proof.
  intros Hmro Hnone Hbase Hdef. unfold _get_sudo_argtypes, getattr.
  rewrite Hmro. split; [|split].
  - apply first_declared_Some. by exists before, base, after.
  - by apply first_defined_app.
  - by eapply first_defined_undeclared.
Qed.

Lemma first_defined_declared l m f argtypes :
  first_defined l m = Some f →
  _esky_sudo_argtypes f = Some argtypes →
  first_declared l m = Some argtypes.
Proof.
  induction l as [|c l IH]; cbn; [done|]. unfold declared.
  destruct (__dict__ c !! m) as [g|]; [|exact IH].
  by intros [= ->] ->.
Qed.

(** X18.  In the helper a decorated method runs the function it
    decorates.  [run] sets [sudo_proxy] of the target to [None] before it
    serves, so the wrapper that [allow_from_sudo] put around the function
    does not forward again, whatever [sudo_proxy] was: a request for the
    method, followed by ["close"], is answered with the pickled result of
    the function itself. *)
Theorem helper_calls_the_function_itself `{!Pickle} (target : pyobject)
    (ep : Endpoint) (m : string) (argtypes : list argtype)
    (func : pyfunc) (raws : list string) (cargs : list pyobj) (v : pyobj)
    (response : string) (rest : list string) (fuel : nat) :
  closed ep = false →
  inbox ep = m :: raws ++ "close" :: rest →
  m ≠ "close" →
  getattr target m = Some (allow_from_sudo argtypes func) →
  coerce argtypes raws = Some cargs →
  func_call func (Instance (name (attrs target)) None) cargs = Returns v →
  pickle_dumps (true, v) = inr response →
  1 < fuel →
  run fuel target ep =
    Some (Ok tt (mkEndpoint rest (peer_gone ep)
                   (outbox ep ++ ["READY"; response; "CLOSING"]) true)).
Proof.
  intros Hopen Hin Hne Hget Hco Hcall Hdump Hfuel.
  assert (Hlist : _get_sudo_argtypes target m = Some argtypes)
    by by eapply first_defined_declared.
  assert (Hans : answer (clear_sudo_proxy target) (Request m raws) = Some response).
  { unfold answer. cbn [req_name req_args]. rewrite decide_False by done.
    rewrite (get_sudo_argtypes_class _ target) by done. rewrite Hlist.
    rewrite (getattr_class _ target) by done. rewrite Hget.
    cbn [mbind option_bind]. rewrite Hco. cbn [mbind option_bind].
    cbn. by rewrite Hcall, Hdump. }
  change fuel with (id fuel).
  replace (id fuel) with (length [Request m raws] + S (fuel - 2)) by (cbn; unfold id; lia).
  erewrite (run_requests _ [Request m raws] [response] _ ("close" :: rest));
    [|by repeat constructor|done|].
  2:{ rewrite Hin. cbn. by rewrite app_nil_r. }
  rewrite serve_last_turn. unfold serve_once, try_except.
  erewrite bind_Ok; [|by apply (endpoint_read_message _ "close" rest)].
  unfold handle. rewrite decide_True by done.
  erewrite bind_Ok; [|by apply endpoint_write_open].
  cbn. by rewrite <-(assoc_L (++)).
Qed.


(** ** esky.winres *)

(** Run a straight-line computation over kernel32 through all its
    branches. *)
Ltac k32_branches :=
  unfold winres.get_app_manifest, winres.load_resource, winres.find_resource,
    winres.add_resource, winres.decode, winres.check, winres.k32,
    winres.read_memory, winres.fail, mbind, winres.K_bind, mret, winres.K_ret;
  repeat (cbn [fst snd default from_option id];
          match goal with
          | |- context [decide (?x = 0)%Z] => destruct (decide (x = 0)%Z)
          | |- context [match ?f ?s with Some _ => _ | None => _ end] =>
              destruct (f s) eqn:?
          end);
  rewrite <-?(assoc_L (++)); cbn [app fst snd].

Section Kernel32.
Variable answers : list winres.k32_call → winres.k32_call → Z.
Variable fs_decode : string → option string.
Variable memory : list winres.k32_call → Z → Z → string.

(** X20.  [load_resource] given a file name releases the module only
    when it succeeds.  All of its kernel32 calls come after the calls made
    before.  If it returns, it called [LoadLibraryExW] first and
    [FreeLibrary] last, on the handle that [LoadLibraryExW] returned, and
    not in between.  If it raises [WinError], it called [LoadLibraryExW]
    and never [FreeLibrary].  If the name does not decode, it called
    nothing. *)
Theorem load_resource_frees_on_success_only (n : winres.pyname)
    (res_type res_id res_lang : Z) (tr : list winres.k32_call) :
  ∃ calls,
    (winres.load_resource answers fs_decode memory (winres.Name n)
       res_type res_id res_lang tr).2 = tr ++ calls ∧
    match (winres.load_resource answers fs_decode memory (winres.Name n)
             res_type res_id res_lang tr).1 with
    | inr _ =>
        ∃ filename lookups,
          calls = winres.LoadLibraryExW filename None 2 :: lookups ++
                  [winres.FreeLibrary
                     (Some (answers tr (winres.LoadLibraryExW filename None 2)))] ∧
          existsb winres.is_FreeLibrary lookups = false
    | inl winres.WinError =>
        ∃ filename lookups,
          calls = winres.LoadLibraryExW filename None 2 :: lookups ∧
          existsb winres.is_FreeLibrary lookups = false
    | inl winres.UnicodeDecodeError => calls = []
    | inl winres.OperandTypeError => False
    end.
Proof.
  destruct n as [s|u]; k32_branches;
    first [ by exists []; rewrite app_nil_r
          | eexists; split; [reflexivity|];
            first [ by eexists _, [_; _; _; _]; split; [reflexivity|]
                  | by eexists _, _; split; [reflexivity|] ] ].
Qed.

(** X21.  [find_resource] given a module handle neither loads nor frees
    a module, and it raises nothing but [WinError].  The two ends of the
    range it returns differ by exactly what [SizeofResource] answered,
    which is not zero: a resource of size zero is reported as an error. *)
Theorem find_resource_leaves_handle_alone (h : Z)
    (res_type res_id : Z) (res_lang : option Z) (tr : list winres.k32_call) :
  ∃ calls,
    (winres.find_resource answers fs_decode (winres.Handle h)
       res_type res_id res_lang tr).2 = tr ++ calls ∧
    existsb winres.is_LoadLibraryExW calls = false ∧
    existsb winres.is_FreeLibrary calls = false ∧
    match (winres.find_resource answers fs_decode (winres.Handle h)
             res_type res_id res_lang tr).1 with
    | inr (start, stop) =>
        let find := winres.FindResourceExW (Some h) res_type res_id
                      (default winres._DEFAULT_RESLANG res_lang) in
        let sizeof := winres.SizeofResource (Some h) (answers tr find) in
        (stop - start)%Z = answers (tr ++ [find]) sizeof ∧
        (stop - start ≠ 0)%Z
    | inl e => e = winres.WinError
    end.
Proof.
  destruct res_lang as [lang|];
    k32_branches; eexists; (split; [reflexivity|]); repeat split; lia.
Qed.

(** X22.  [find_resource] given [None] for the module never returns a
    range: it raises [WinError], or, after its four lookups, the
    [TypeError] of subtracting [None] from the pointer. *)
Theorem find_resource_without_handle (res_type res_id : Z) (res_lang : option Z)
    (tr : list winres.k32_call) :
  match (winres.find_resource answers fs_decode winres.NoneArg
           res_type res_id res_lang tr).1 with
  | inr _ => False
  | inl e => e = winres.WinError ∨
             e = winres.OperandTypeError ∧
             length (winres.find_resource answers fs_decode winres.NoneArg
                       res_type res_id res_lang tr).2 = length tr + 4
  end.
Proof.
  k32_branches; try (by left). right. split; [done|].
  rewrite length_app. cbn. lia.
Qed.

(** X23.  A failed [LoadLibraryExW] goes unnoticed: [load_resource] does
    not test the handle it gets, so when the call returns null the lookup
    goes on with [FindResourceExW] on the null handle. *)
Theorem failed_LoadLibraryExW_goes_unnoticed (filename : string)
    (res_type res_id res_lang : Z) (tr : list winres.k32_call) :
  answers tr (winres.LoadLibraryExW filename None 2) = 0%Z →
  ∃ more,
    (winres.load_resource answers fs_decode memory
       (winres.Name (winres.UnicodeName filename))
       res_type res_id res_lang tr).2 =
    tr ++ winres.LoadLibraryExW filename None 2 ::
          winres.FindResourceExW (Some 0%Z) res_type res_id res_lang :: more.
Proof.
  intros Hnull. k32_branches; unfold winres.LOAD_LIBRARY_AS_DATAFILE;
    rewrite Hnull; by eexists.
Qed.


(** X25.  The kernel32 calls of [add_resource].  When it returns it has
    called [BeginUpdateResourceW], [UpdateResourceW] with the resource and
    its length, and [EndUpdateResourceW] without discarding, on the same
    handle, and nothing else.  When it raises [WinError] it stopped at the
    call that returned zero: at [BeginUpdateResourceW]; at the call after
    it, and then no [EndUpdateResourceW] was called, so the update is
    neither written nor discarded; or at [EndUpdateResourceW].  If the
    name does not decode, it called nothing. *)
Theorem add_resource_calls (filename : winres.pyname) (resource : string)
    (res_type res_id res_lang : Z) (tr : list winres.k32_call) :
  ∃ calls,
    (winres.add_resource answers fs_decode filename resource
       res_type res_id res_lang tr).2 = tr ++ calls ∧
    match (winres.add_resource answers fs_decode filename resource
             res_type res_id res_lang tr).1 with
    | inr _ =>
        ∃ name h,
          calls = [winres.BeginUpdateResourceW name 0;
                   winres.UpdateResourceW h res_type res_id res_lang resource
                     (Z.of_nat (String.length resource));
                   winres.EndUpdateResourceW h 0]
    | inl winres.WinError =>
        ∃ name,
          calls = [winres.BeginUpdateResourceW name 0] ∨
          (∃ update,
             calls = [winres.BeginUpdateResourceW name 0; update] ∧
             winres.is_EndUpdateResourceW update = false ∧
             answers (tr ++ [winres.BeginUpdateResourceW name 0]) update = 0%Z) ∨
          (∃ update h,
             calls = [winres.BeginUpdateResourceW name 0; update;
                      winres.EndUpdateResourceW h 0] ∧
             answers (tr ++ [winres.BeginUpdateResourceW name 0; update])
               (winres.EndUpdateResourceW h 0) = 0%Z)
    | inl winres.UnicodeDecodeError => calls = []
    | inl winres.OperandTypeError => False
    end.
Proof.
  destruct filename as [s|u]; k32_branches;
    first [ by exists []; rewrite app_nil_r
          | eexists; split; [reflexivity|] ];
    first [ by eexists _, _
          | by eexists; left
          | by eexists; right; left; eexists
          | eexists; right; right; eexists _, _; split; [reflexivity|];
            by rewrite <-(assoc_L (++)) in * ].
Qed.
End Kernel32.

(** ** The example application *)

#[local] Existing Instance line_pickle.

(** C10 (amended) at [_purge], which the example application declares
    allowed. *)
Lemma private_names_never_forwarded_witness :
  is_Some (_get_sudo_argtypes esky_app "_purge") ∧
  __getattr__ "_purge" started = Raise (Exc AttributeError "_purge") started ∧
  getattribute "_purge" started = Raise (Exc AttributeError "_purge") started.
Proof.
  split; [vm_compute; eauto|].
  destruct (private_names_never_forwarded "_purge" started eq_refl) as [H1 H2].
  split; [exact H1|]. exact (H2 eq_refl).
Defined.

(** C10 as stated fails twice.  Attribute access does not raise for
    [__init__], which the proxy has by itself.  And [_purge] is invoked
    through the proxy: given as a surplus argument of
    [install_version], it is read by the helper as a request and served
    (the helper writes the pickled [(True, None)]). *)
Lemma private_names_never_forwarded_counterexample :
  startswith_underscore "__init__" = true ∧
  getattribute "__init__" started = Ok (Own "__init__") started ∧
  answer (clear_sudo_proxy esky_app) (Request "_purge" []) = Some "TN" ∧
  let f := Wrapper "install_version" (Some 0) in
  let w1 := remember "install_version" f started in
  getattribute "install_version" started = Ok (Forwarder f) w1 ∧
  call f [PyStr "1.2.3"; PyStr "_purge"] w1 =
    Ok (PyBool true)
      (with_pipe 0
         (mkLinked (clear_sudo_proxy esky_app)
            (mkEndpoint [] false ["READY"; "TB1"; "TN"] false)
            true 2 ["install_version"; "1.2.3"; "_purge"] false)
         w1).
Proof. repeat split; vm_compute; reflexivity. Qed.

(** C7 (amended) at a channel that delivers ["DENIED"] and then answers. *)
Lemma start_without_ready_witness :
  start (mkEndpoint ["DENIED"; "CLOSING"] false [] false) unstarted =
    Raise (Exc RuntimeError "failed to spawn helper app")
      (bound_to (mkEndpoint [] false ["close"] true) unstarted).
Proof.
  apply (start_without_ready (mkEndpoint ["DENIED"; "CLOSING"] false [] false)
           unstarted "DENIED" "CLOSING" []); [reflexivity|reflexivity|discriminate].
Defined.

(** C7 as stated fails: the channel delivers ["DENIED"] and ends;
    [start()] raises [EOFError], not [RuntimeError], and the channel is
    not closed. *)
Lemma start_without_ready_counterexample :
  start (mkEndpoint ["DENIED"] true [] false) unstarted =
    Raise (Exc EOFError "")
      (bound_to (mkEndpoint [] true ["close"] false) unstarted).
Proof. vm_compute. reflexivity. Qed.

(** C8 (amended) after one request was written to a helper that died:
    with nothing left to read, and with one response left unread. *)
Lemma close_after_helper_died_witness :
  close (holding (mkEndpoint [] true ["install_version"] false)) =
    Raise (Exc EOFError "")
      (holding (mkEndpoint [] true ["install_version"; "close"] false)) ∧
  close (holding (mkEndpoint ["TB1"] true ["install_version"] false)) =
    Ok tt (holding (mkEndpoint [] true ["install_version"; "close"] true)).
Proof.
  split.
  - apply (close_after_helper_died
             (holding (mkEndpoint [] true ["install_version"] false)) 0
             (mkEndpoint [] true ["install_version"] false)); reflexivity.
  - apply (close_after_helper_died
             (holding (mkEndpoint ["TB1"] true ["install_version"] false)) 0
             (mkEndpoint ["TB1"] true ["install_version"] false)); reflexivity.
Defined.

(** C8 as stated fails: with the helper gone, [close()] raises [EOFError]
    and the channel is not released. *)
Lemma close_after_helper_died_counterexample :
  close (holding (mkEndpoint [] true [] false)) =
    Raise (Exc EOFError "") (holding (mkEndpoint [] true ["close"] false)).
Proof. vm_compute. reflexivity. Qed.

(** C9 (amended) on a channel that acknowledged the first [close()]. *)
Lemma close_twice_witness :
  close (holding (mkEndpoint ["CLOSING"] true [] false)) =
    Ok tt (holding (mkEndpoint [] true ["close"] true)) ∧
  close (holding (mkEndpoint [] true ["close"] true)) =
    Raise closed_error (holding (mkEndpoint [] true ["close"] true)).
Proof.
  assert (H : close (holding (mkEndpoint ["CLOSING"] true [] false)) =
              Ok tt (holding (mkEndpoint [] true ["close"] true)))
    by (vm_compute; reflexivity).
  split; [exact H|]. exact (close_twice _ _ H).
Defined.

(** C9 as stated fails: [start()], [close()], then [close()] again
    against the helper itself; the second [close()] raises. *)
Lemma close_twice_counterexample :
  start (spawn_sudo (__init__ esky_app)) unstarted = Ok tt started ∧
  close started = Ok tt stopped ∧
  close stopped = Raise closed_error stopped.
Proof. repeat split; vm_compute; reflexivity. Qed.

(** C2 at the request ["cleanup"], which the example application does not
    declare. *)
Lemma run_unlisted_request_witness :
  run 1 esky_app (mkEndpoint ["cleanup"; "close"] false [] false) =
    Some (Raise (Exc NameError "global name 'attr' is not defined")
            (mkEndpoint ["close"] false ["READY"] true)).
Proof.
  apply (run_unlisted_request esky_app
           (mkEndpoint ["cleanup"; "close"] false [] false) "cleanup" ["close"] 0);
    [reflexivity|reflexivity|discriminate|vm_compute; reflexivity].
Defined.

(** C1 (amended) at [install_version]. *)
Lemma preflight_matches_dispatch_witness :
  (∃ f, __getattr__ "install_version" started =
          Ok f (remember "install_version" f started)) ∧
  (∃ method,
     getattr (clear_sudo_proxy esky_app) "install_version" = Some method ∧
     ∀ pipe : Endpoint,
       handle (clear_sudo_proxy esky_app) "install_version" pipe =
         (args ← read_args [py_str];
          respond (clear_sudo_proxy esky_app) method args) pipe).
Proof.
  exact (preflight_matches_dispatch (Q:=Endpoint) "install_version" started
           (clear_sudo_proxy esky_app) eq_refl ltac:(discriminate) eq_refl).
Defined.

(** C1 as stated fails at [_purge], declared allowed: the proxy rejects
    the name, the helper serves it (it writes the pickled
    [(True, None)]). *)
Lemma preflight_matches_dispatch_counterexample :
  is_Some (_get_sudo_argtypes esky_app "_purge") ∧
  __getattr__ "_purge" started = Raise (Exc AttributeError "_purge") started ∧
  serve_once (clear_sudo_proxy esky_app) (mkEndpoint ["_purge"] false [] false) =
    Ok Continue (mkEndpoint [] false ["TN"] false).
Proof.
  split; [vm_compute; eauto|]. split; vm_compute; reflexivity.
Qed.

Lemma App_ancestors c :
  ancestor App c ↔ c ∈ [App; Frozen; Esky; Bundled; Esky].
Proof. by rewrite <-elem_of_classic_order. Qed.

Lemma App_well_formed : well_formed App.
Proof.
  split; [|done].
  intros a b Ha%App_ancestors Hb%App_ancestors.
  repeat (apply elem_of_cons in Ha as [->|Ha]);
    try (by apply elem_of_nil in Ha);
    repeat (apply elem_of_cons in Hb as [->|Hb]);
    try (by apply elem_of_nil in Hb);
    first [reflexivity | discriminate].
Qed.

Lemma cleanup_undeclared c : ancestor App c → declared c "cleanup" = None.
Proof.
  intros Hc%App_ancestors.
  repeat (apply elem_of_cons in Hc as [->|Hc]);
    try (by apply elem_of_nil in Hc); vm_compute; reflexivity.
Qed.


Lemma Patcher_ancestors c :
  ancestor Patcher c ↔ c ∈ [Patcher; Updater; py_object].
Proof. by rewrite <-elem_of_classic_order. Qed.

Lemma Patcher_well_formed : well_formed Patcher.
Proof.
  split.
  - intros a b Ha%Patcher_ancestors Hb%Patcher_ancestors.
    repeat (apply elem_of_cons in Ha as [->|Ha]);
      try (by apply elem_of_nil in Ha);
      repeat (apply elem_of_cons in Hb as [->|Hb]);
      try (by apply elem_of_nil in Hb);
      first [reflexivity | discriminate].
  - intros mro [= <-]. split; [by eexists _, _|]. split.
    + intros c Hc.
      repeat (apply elem_of_cons in Hc as [->|Hc]);
        try (by apply elem_of_nil in Hc).
      * exists Patcher. by split; [apply Patcher_ancestors; set_solver|].
      * exists Updater. by split; [apply Patcher_ancestors; set_solver|].
      * exists py_object. by split; [apply Patcher_ancestors; set_solver|].
    + intros a Ha%Patcher_ancestors.
      repeat (apply elem_of_cons in Ha as [->|Ha]);
        try (by apply elem_of_nil in Ha).
      * eexists. split; [apply list_elem_of_here|done].
      * eexists. split; [apply list_elem_of_further, list_elem_of_here|done].
      * eexists.
        split; [do 2 apply list_elem_of_further; apply list_elem_of_here|done].
Qed.

Lemma Patcher_undeclared c attr :
  attr = "cleanup" ∨ attr = "close" →
  ancestor Patcher c → declared c attr = None.
Proof.
  intros Hattr Hc%Patcher_ancestors.
  repeat (apply elem_of_cons in Hc as [->|Hc]);
    try (by apply elem_of_nil in Hc);
    destruct Hattr as [->| ->]; vm_compute; reflexivity.
Qed.

(** C5 (amended) at [cleanup], on the old-style application and on the
    new-style one. *)
Lemma unlisted_names_rejected_locally_witness :
  (∃ msg,
     __getattr__ "cleanup" started = Raise (Exc AttributeError msg) started ∧
     getattribute "cleanup" started = Raise (Exc AttributeError msg) started) ∧
  (∃ msg,
     __getattr__ "cleanup" patcher_started =
       Raise (Exc AttributeError msg) patcher_started ∧
     getattribute "cleanup" patcher_started =
       Raise (Exc AttributeError msg) patcher_started).
Proof.
  split.
  - destruct (unlisted_names_rejected_locally "cleanup" started
                App_well_formed cleanup_undeclared) as (msg & H1 & H2).
    exists msg. split; [exact H1|]. exact (H2 eq_refl eq_refl).
  - destruct (unlisted_names_rejected_locally "cleanup" patcher_started
                Patcher_well_formed
                (λ c, Patcher_undeclared c "cleanup" (or_introl eq_refl)))
      as (msg & H1 & H2).
    exists msg. split; [exact H1|]. exact (H2 eq_refl eq_refl).
Defined.

(** C5 as stated fails at [close]: no class of the target's chain
    declares it (the class of the target defines it, undecorated), yet
    attribute access on the proxy raises nothing: it gives the proxy's own
    [close]. *)
Lemma unlisted_names_rejected_locally_counterexample :
  (∀ c, ancestor Patcher c → declared c "close" = None) ∧
  is_Some (__dict__ Patcher !! "close") ∧
  getattribute "close" patcher_started = Ok (Own "close") patcher_started.
Proof.
  split; [|split].
  - intros c. apply Patcher_undeclared. by right.
  - vm_compute. eauto.
  - vm_compute. reflexivity.
Qed.






(** ** Further examples *)


(** X1 at two requests of the example application followed by
    ["close"] and one more message. *)
Lemma run_serves_until_close_witness :
  run 3 esky_app
    (mkEndpoint ["install_version"; "1.2.3"; "uninstall_version"; "1.2.3";
                 "close"; "install_version"] false [] false) =
    Some (Ok tt (mkEndpoint ["install_version"] false
                   ["READY"; "TB1"; "FEIdisk full"; "CLOSING"] true)).
Proof.
  apply (run_serves_until_close esky_app
           (mkEndpoint ["install_version"; "1.2.3"; "uninstall_version"; "1.2.3";
                        "close"; "install_version"] false [] false)
           [Request "install_version" ["1.2.3"];
            Request "uninstall_version" ["1.2.3"]]
           ["TB1"; "FEIdisk full"] ["install_version"] 3).
  - repeat (apply List.Forall2_cons; [vm_compute; reflexivity|]). apply List.Forall2_nil.
  - reflexivity.
  - reflexivity.
  - cbn; lia.
Defined.

(** X2 at one request, after which the peer is gone. *)
Lemma run_after_last_request_witness :
  run 2 esky_app (mkEndpoint ["install_version"; "1.2.3"] true [] false) =
    Some (Ok tt (mkEndpoint [] true ["READY"; "TB1"] true)).
Proof.
  apply (run_after_last_request esky_app
           (mkEndpoint ["install_version"; "1.2.3"] true [] false)
           [Request "install_version" ["1.2.3"]] ["TB1"] 2).
  - repeat (apply List.Forall2_cons; [vm_compute; reflexivity|]). apply List.Forall2_nil.
  - reflexivity.
  - reflexivity.
  - cbn; lia.
Defined.

(** X3 at [install_version] without its argument. *)
Lemma run_truncated_request_witness :
  run 1 esky_app (mkEndpoint ["install_version"] true [] false) =
    Some (Ok tt (mkEndpoint [] true ["READY"] true)).
Proof.
  apply (run_truncated_request esky_app
           (mkEndpoint ["install_version"] true [] false) [] []
           "install_version" [py_str] [] [] 1).
  - apply List.Forall2_nil.
  - reflexivity.
  - reflexivity.
  - reflexivity.
  - discriminate.
  - vm_compute; reflexivity.
  - cbn; lia.
  - reflexivity.
  - cbn; lia.
Defined.

(** X4 at [set_level("high")]: [int] raises [ValueError]. *)
Lemma run_coercion_raises_witness :
  run 1 tool (mkEndpoint ["set_level"; "high"; "close"] false [] false) =
    Some (Raise (Exc ValueError "invalid literal for int() with base 10: 'high'")
            (mkEndpoint ["close"] false ["READY"] true)).
Proof.
  apply (run_coercion_raises tool
           (mkEndpoint ["set_level"; "high"; "close"] false [] false) [] []
           "set_level" [py_int] [] [] py_int "high"
           (Exc ValueError "invalid literal for int() with base 10: 'high'")
           ["close"] 1).
  - apply List.Forall2_nil.
  - reflexivity.
  - reflexivity.
  - discriminate.
  - vm_compute; reflexivity.
  - reflexivity.
  - reflexivity.
  - vm_compute; reflexivity.
  - reflexivity.
  - cbn; lia.
Defined.

(** X5 at [verify], which raises an application exception that
    the example pickle cannot encode. *)
Lemma run_unpicklable_outcome_witness :
  run 1 tool (mkEndpoint ["verify"; "close"] false [] false) =
    Some (Raise (Exc PicklingError "cannot pickle")
            (mkEndpoint ["close"] false ["READY"] true)).
Proof.
  apply (run_unpicklable_outcome tool
           (mkEndpoint ["verify"; "close"] false [] false) [] []
           "verify" [] verify [] []
           (false, PyExc (Exc (UserError "EskyBrokenError") "bad checksum"))
           (Exc PicklingError "cannot pickle") ["close"] 1).
  - apply List.Forall2_nil.
  - reflexivity.
  - reflexivity.
  - discriminate.
  - vm_compute; reflexivity.
  - vm_compute; reflexivity.
  - reflexivity.
  - reflexivity.
  - reflexivity.
  - reflexivity.
  - cbn; lia.
Defined.

(** X6 at [shutdown], which raises [SystemExit]. *)
Lemma run_uncaught_exception_witness :
  run 1 esky_app (mkEndpoint ["shutdown"; "close"] false [] false) =
    Some (Raise (Exc SystemExit "0") (mkEndpoint ["close"] false ["READY"] true)).
Proof.
  apply (run_uncaught_exception esky_app
           (mkEndpoint ["shutdown"; "close"] false [] false) [] []
           "shutdown" [] shutdown [] [] (Exc SystemExit "0") ["close"] 1).
  - apply List.Forall2_nil.
  - reflexivity.
  - reflexivity.
  - discriminate.
  - vm_compute; reflexivity.
  - vm_compute; reflexivity.
  - reflexivity.
  - reflexivity.
  - reflexivity.
  - cbn; lia.
Defined.

(** X8 at [install_version], asked of the proxy before
    [start()]. *)
Lemma wrapper_built_before_start_witness :
  (∀ args (w' : process Linked),
     call (Wrapper "install_version" None) args w' =
       Raise (none_has_no "write") w') ∧
  (∀ spawned : Linked,
     self_dict (self (state_of
       (start spawned
          (remember "install_version" (Wrapper "install_version" None)
             unstarted)))) !! "install_version"
     = Some (Wrapper "install_version" None)).
Proof.
  apply (wrapper_built_before_start "install_version" unstarted
           (remember "install_version" (Wrapper "install_version" None) unstarted)
           (Wrapper "install_version" None)).
  - reflexivity.
  - vm_compute; reflexivity.
Defined.

(** X9 at [install_version], asked of a started proxy that is
    then started again. *)
Lemma wrapper_outlives_restart_witness :
  let w2 := state_of
              (start (spawn_sudo (self started))
                 (remember "install_version" (Wrapper "install_version" (Some 0))
                    started)) in
  self_dict (self w2) !! "install_version"
    = Some (Wrapper "install_version" (Some 0)) ∧
  self_pipe (self w2) = Some 1 ∧
  w_pipe (Wrapper "install_version" (Some 0)) ≠ self_pipe (self w2).
Proof.
  apply (wrapper_outlives_restart "install_version" started
           (remember "install_version" (Wrapper "install_version" (Some 0)) started)
           (Wrapper "install_version" (Some 0)) (spawn_sudo (self started))).
  - intros r [= <-]. cbn; lia.
  - vm_compute; reflexivity.
Defined.

(** X11 at a channel that delivers ["READY"] and one more message. *)
Lemma start_ready_witness :
  start (mkEndpoint ["READY"; "TB1"] false [] false) unstarted =
    Ok tt (bound_to (mkEndpoint ["TB1"] false [] false) unstarted).
Proof.
  apply (start_ready (mkEndpoint ["READY"; "TB1"] false [] false) unstarted ["TB1"]);
    reflexivity.
Defined.

(** X12 at a channel that ends at once. *)
Lemma start_end_of_stream_witness :
  start (mkEndpoint [] true [] false) unstarted =
    Raise (Exc EOFError "") (bound_to (mkEndpoint [] true [] false) unstarted).
Proof.
  apply (start_end_of_stream (mkEndpoint [] true [] false) unstarted); reflexivity.
Defined.




(** X17 at [Tool.install_version], which overrides
    without the decorator what [Esky] declares. *)
Lemma inherited_declaration_covers_override_witness :
  _get_sudo_argtypes tool "install_version" = Some [py_str] ∧
  getattr tool "install_version" = Some install_quietly ∧
  _esky_sudo_argtypes install_quietly = None.
Proof.
  apply (inherited_declaration_covers_override tool "install_version"
           install_quietly [py_str] [Tool] Esky []).
  - vm_compute; reflexivity.
  - intros c ->%list_elem_of_singleton. vm_compute; reflexivity.
  - vm_compute; reflexivity.
  - vm_compute; reflexivity.
Defined.

(** X18 at [install_version], on a target whose
    [sudo_proxy] is set when [run] starts. *)
Lemma helper_calls_the_function_itself_witness :
  run 2 (PyObject App (Instance "app" (Some (λ _ _, Returns PyNone))))
    (mkEndpoint ["install_version"; "1.2.3"; "close"] false [] false) =
    Some (Ok tt (mkEndpoint [] false ["READY"; "TB1"; "CLOSING"] true)).
Proof.
  apply (helper_calls_the_function_itself
           (PyObject App (Instance "app" (Some (λ _ _, Returns PyNone))))
           (mkEndpoint ["install_version"; "1.2.3"; "close"] false [] false)
           "install_version" [py_str]
           (PyFunc "install_version" None
              (λ _ args, match args with
                         | [PyStr _] => Returns (PyBool true)
                         | _ => Raises (Exc TypeError "install_version() takes exactly 2 arguments")
                         end))
           ["1.2.3"] [PyStr "1.2.3"] (PyBool true) "TB1" [] 2).
  - reflexivity.
  - reflexivity.
  - discriminate.
  - vm_compute; reflexivity.
  - reflexivity.
  - reflexivity.
  - reflexivity.
  - cbn; lia.
Defined.


(** X23 on a system where every call fails. *)
Lemma failed_LoadLibraryExW_goes_unnoticed_witness :
  ∃ more,
    (winres.load_resource failing_system (λ s, Some s) (λ _ _ _, "")
       (winres.Name (winres.UnicodeName "app.exe")) 24 1 1033 []).2 =
    [] ++ winres.LoadLibraryExW "app.exe" None 2 ::
          winres.FindResourceExW (Some 0%Z) 24 1 1033 :: more.
Proof.
  apply (failed_LoadLibraryExW_goes_unnoticed failing_system (λ s, Some s)
           (λ _ _ _, "") "app.exe" 24 1 1033 []).
  reflexivity.
Defined.
